(** * js-notes: the runnable snippets of the notes, embedded and verified

    The repository is a set of JavaScript and TypeScript notes.  Three of
    its snippets compute something that can be stated and are embedded here:

    - [getPackageCost], the price tiers of src/example.js (lines 2-12);
    - [nonduplicateNumber], the deduplication with [reduce] of the ES6 notes
      (src/unnamed/part_000, lines 77-85);
    - [processTransactions], the generator of the ES6 notes
      (src/unnamed/part_000, lines 298-327).

    Part III covers the other snippets of the ES6 notes that compute
    something: the cart ([calculateTotalPrice], [addProductsToCart],
    [sumPrices], [applyDiscount]), the iterator of [catalog], the proxy that
    validates a price, and the generator [generateOrderId].

    A JavaScript number is an IEEE 754 binary64 value.  It is modelled by
    Rocq's primitive [float], which is that format with the same rounding
    to nearest, ties to even: [<], [<=], [+] and [-] of the source are
    [PrimFloat.ltb], [PrimFloat.leb], [PrimFloat.add] and [PrimFloat.sub],
    and the snippets run inside Rocq on the numbers of the notes.  Proofs go
    through [Prim2SF], which specifies the primitive operations over
    [spec_float]. *)

From Stdlib Require Import ZArith Lia Bool List String.
From Stdlib Require Import RelationClasses SetoidList Sorted Zpower.
From Stdlib Require Import DecimalString.
From Stdlib Require Import SpecFloat PrimFloat FloatOps FloatAxioms.
Import ListNotations.

Open Scope float_scope.

(* ================================================================== *)
(** * Part I: definitions                                              *)
(* ================================================================== *)

(** ** JavaScript numbers *)

Module JS.

(** The type [number] of the language. *)
Definition number : Set := float.

(** [a < b] *)
Definition lt (a b : number) : bool := PrimFloat.ltb a b.

(** [a <= b] *)
Definition le (a b : number) : bool := PrimFloat.leb a b.

(** [a >= b]: true when [a < b] is false and neither side is NaN, which
    is [b <= a]. *)
Definition ge (a b : number) : bool := PrimFloat.leb b a.

(** [a > b] *)
Definition gt (a b : number) : bool := PrimFloat.ltb b a.

(** [Number.isFinite] *)
Definition isFinite (a : number) : bool := PrimFloat.is_finite a.

End JS.

(** ** src/example.js: [getPackageCost]

    [[
    function getPackageCost(distance) {
        if (distance < 1000) {
          return 500;
        } else if (distance < 2000) {
          return 1000;
        } else if (distance < 3000) {
          return 1500;
        } else {
          return 2000;
        }
      }
    ]] *)

Definition getPackageCost (distance : JS.number) : JS.number :=
  if JS.lt distance 1000 then 500
  else if JS.lt distance 2000 then 1000
  else if JS.lt distance 3000 then 1500
  else 2000.

(** The four tiers of the price list. *)
Definition tiers : list JS.number := [500; 1000; 1500; 2000].

(** ** ES6 notes: deduplication with [reduce]

    [[
    const numbers=[1,3,4,5,6,4,6,9,8]
    const nonduplicateNumber=numbers.reduce((accumulate,numbers)=>{
        if(!accumulate.includes(numbers)){
            accumulate.push(numbers)
        }
        return accumulate
    },[])
    ]]

    Arrays are lists.  The array methods are generic in the type of the
    elements; [includes] compares with the SameValueZero relation of the
    language, which is a parameter here and is instantiated at numbers
    below. *)

Section ArrayMethods.

Context {A : Type}.
Variable sameValueZero : A -> A -> bool.

(** [arr.includes(x)]: some element [y] of [arr] has
    [SameValueZero(y, x)]. *)
Fixpoint includes (arr : list A) (x : A) : bool :=
  match arr with
  | [] => false
  | y :: rest => sameValueZero y x || includes rest x
  end.

(** [arr.push(x)]: the array with [x] appended (the call mutates [arr],
    and the callback below returns that same array). *)
Definition push (arr : list A) (x : A) : list A := arr ++ [x].

(** [arr.reduce(callback, initialValue)]: left to right over a dense
    array. *)
Definition reduce {B : Type} (callback : B -> A -> B) (arr : list A)
    (initialValue : B) : B :=
  fold_left callback arr initialValue.

(** The callback of the snippet, with the parameter names of the source. *)
Definition keepFirst (accumulate : list A) (numbers : A) : list A :=
  if negb (includes accumulate numbers)
  then push accumulate numbers
  else accumulate.

(** The whole expression, as a function of the array it is applied to. *)
Definition nonduplicate (numbers : list A) : list A :=
  reduce keepFirst numbers [].

(** Position [i] of [l] holds [x] and nothing before it is the same value:
    [i] is the first occurrence of [x] in [l]. *)
Definition first_occurrence (l : list A) (i : nat) (x : A) : Prop :=
  nth_error l i = Some x /\
  forall j y, (j < i)%nat -> nth_error l j = Some y -> sameValueZero y x = false.

(** The same value, as a relation. *)
Definition same (x y : A) : Prop := sameValueZero x y = true.

End ArrayMethods.

(** SameValueZero on numbers: [===] except that NaN is the same as NaN
    ([+0] and [-0] are the same already). *)
Definition sameValueZero (x y : JS.number) : bool :=
  PrimFloat.eqb x y || (PrimFloat.is_nan x && PrimFloat.is_nan y).

Definition numbers : list JS.number := [1; 3; 4; 5; 6; 4; 6; 9; 8].

Definition nonduplicateNumber : list JS.number :=
  nonduplicate sameValueZero numbers.

(** ** ES6 notes: the generator [processTransactions]

    [[
    function* processTransactions(transactions) {
        let balance = 0;
        for (const transaction of transactions) {
            if (transaction.type === 'deposit') {
                balance += transaction.amount;
                yield `Deposited $${transaction.amount}, new balance: $${balance}`;
            } else if (transaction.type === 'withdraw') {
                if (balance >= transaction.amount) {
                    balance -= transaction.amount;
                    yield `Withdrew $${transaction.amount}, new balance: $${balance}`;
                } else {
                    yield `Insufficient funds for withdrawal of $${transaction.amount}, balance remains: $${balance}`;
                }
            }
        }
        return `All transactions processed, final balance: $${balance}`;
    }
    ]]

    A generator object is its suspended frame: the local [balance] and the
    transactions the loop has not read yet.  [next] resumes the frame up to
    the following [yield] or to the [return]. *)

Record transaction : Set := {
  type : string;
  amount : JS.number
}.

(** The frame of a suspended generator, or a generator that has returned. *)
Record frame : Set := {
  balance : JS.number;
  pending : list transaction
}.

Inductive generator : Set :=
| Suspended (f : frame)
| Completed.

(** What [next()] returns; [value] is [None] for [undefined]. *)
Record IteratorResult : Set := {
  value : option string;
  done : bool
}.

Section Generator.

(** The conversion of a number to a string that a template literal
    applies ([Number::toString] of the language). *)
Variable toString : JS.number -> string.

Definition deposited (amount balance : JS.number) : string :=
  "Deposited $" ++ toString amount ++ ", new balance: $" ++ toString balance.

Definition withdrew (amount balance : JS.number) : string :=
  "Withdrew $" ++ toString amount ++ ", new balance: $" ++ toString balance.

Definition insufficient (amount balance : JS.number) : string :=
  "Insufficient funds for withdrawal of $" ++ toString amount
    ++ ", balance remains: $" ++ toString balance.

Definition processed (balance : JS.number) : string :=
  "All transactions processed, final balance: $" ++ toString balance.

Definition yield (s : string) (balance : JS.number)
    (pending : list transaction) : IteratorResult * generator :=
  ({| value := Some s; done := false |},
   Suspended {| balance := balance; pending := pending |}).

(** The body of the loop from the transaction it reads next.  A
    transaction that is neither a deposit nor a withdrawal yields nothing
    and the loop goes on. *)
Fixpoint resume (balance : JS.number) (pending : list transaction)
    : IteratorResult * generator :=
  match pending with
  | [] => ({| value := Some (processed balance); done := true |}, Completed)
  | transaction :: rest =>
      if String.eqb (type transaction) "deposit" then
        let balance := balance + amount transaction in
        yield (deposited (amount transaction) balance) balance rest
      else if String.eqb (type transaction) "withdraw" then
        if JS.ge balance (amount transaction) then
          let balance := balance - amount transaction in
          yield (withdrew (amount transaction) balance) balance rest
        else
          yield (insufficient (amount transaction) balance) balance rest
      else resume balance rest
  end.

(** [processTransactions(transactions)]: the generator before its first
    [next()]; [let balance = 0] runs at that first call. *)
Definition processTransactions (transactions : list transaction) : generator :=
  Suspended {| balance := 0; pending := transactions |}.

(** [g.next()] *)
Definition next (g : generator) : IteratorResult * generator :=
  match g with
  | Suspended f => resume (balance f) (pending f)
  | Completed => ({| value := None; done := true |}, Completed)
  end.

(** The generator after [n] calls of [next()]. *)
Fixpoint after (n : nat) (g : generator) : generator :=
  match n with
  | O => g
  | S k => after k (snd (next g))
  end.

(** The values of the first [n] calls of [next()]. *)
Fixpoint values (n : nat) (g : generator) : list (option string) :=
  match n with
  | O => []
  | S k => value (fst (next g)) :: values k (snd (next g))
  end.

End Generator.

(** The running balance of a generator is not negative: [balance >= 0]
    holds in its frame. *)
Definition balance_nonneg (g : generator) : Prop :=
  match g with
  | Suspended f => JS.ge (balance f) 0 = true
  | Completed => True
  end.

(** A transaction the invariant of the balance allows: its amount is not
    negative, and a withdrawal is of a finite amount. *)
Definition admissible (t : transaction) : Prop :=
  JS.ge (amount t) 0 = true /\
  (type t = "withdraw"%string -> JS.isFinite (amount t) = true).

(** What a generator keeps from one [next()] to the following one: a
    balance that is not negative and transactions that are admissible. *)
Definition sound (g : generator) : Prop :=
  match g with
  | Suspended f => JS.ge (balance f) 0 = true /\ Forall admissible (pending f)
  | Completed => True
  end.

(** The weaker invariant that needs no finiteness: the balance is never
    below zero ([balance < 0] is false, which NaN satisfies), and the
    amounts still to come are not negative. *)
Definition solvent (g : generator) : Prop :=
  match g with
  | Suspended f =>
      JS.lt (balance f) 0 = false /\
      Forall (fun t => JS.ge (amount t) 0 = true) (pending f)
  | Completed => True
  end.

(** The integer a binary64 value is, when it is one. *)
Definition integral (x : spec_float) : option Z :=
  match x with
  | S754_zero _ => Some 0%Z
  | S754_finite s m e =>
      let signed (z : Z) := if s then (- z)%Z else z in
      if (0 <=? e)%Z then Some (signed (Z.pos m * 2 ^ e)%Z)
      else if (Z.pos m mod 2 ^ (- e) =? 0)%Z
           then Some (signed (Z.pos m / 2 ^ (- e))%Z)
           else None
  | _ => None
  end.

(** [Number::toString] on the numbers the notes print: NaN, the infinities
    and the integers below [10^21], which the language writes in plain
    decimal digits.  The shortest decimal expansion of the other numbers is
    not modelled, and they are shown as the empty string; the statements
    below about the generator hold for every conversion. *)
Definition showNumber (x : JS.number) : string :=
  match Prim2SF x with
  | S754_nan => "NaN"
  | S754_infinity false => "Infinity"
  | S754_infinity true => "-Infinity"
  | sf =>
      match integral sf with
      | Some z =>
          if (Z.abs z <? 10 ^ 21)%Z
          then NilZero.string_of_int (Z.to_int z)
          else ""
      | None => ""
      end
  end.

(** [transactions] of the notes. *)
Definition transactions : list transaction :=
  [ {| type := "deposit"; amount := 100 |};
    {| type := "withdraw"; amount := 50 |};
    {| type := "deposit"; amount := 200 |};
    {| type := "withdraw"; amount := 30 |} ].

(** ** Auxiliary definitions: the order of binary64 values

    [SFcompare] orders the values that are not NaN by sign, then exponent,
    then mantissa.  [key] sends a value to a triple of integers ordered
    lexicographically, which turns transitivity into linear arithmetic. *)

Definition key (x : spec_float) : Z * Z * Z :=
  match x with
  | S754_nan => (0, 0, 0)%Z
  | S754_zero _ => (0, 0, 0)%Z
  | S754_infinity true => (-2, 0, 0)%Z
  | S754_infinity false => (2, 0, 0)%Z
  | S754_finite true m e => (-1, - e, Z.neg m)%Z
  | S754_finite false m e => (1, e, Z.pos m)%Z
  end.

Definition lex_lt (a b : Z * Z * Z) : Prop :=
  let '(a1, a2, a3) := a in
  let '(b1, b2, b3) := b in
  (a1 < b1 \/ (a1 = b1 /\ (a2 < b2 \/ (a2 = b2 /\ a3 < b3))))%Z.

(** The same order, as a comparison. *)
Definition lex_compare (a b : Z * Z * Z) : comparison :=
  let '(a1, a2, a3) := a in
  let '(b1, b2, b3) := b in
  match (a1 ?= b1)%Z with
  | Eq => match (a2 ?= b2)%Z with
          | Eq => (a3 ?= b3)%Z
          | c => c
          end
  | c => c
  end.

Definition not_nan (x : spec_float) : Prop := x <> S754_nan.

(** A binary64 value that is [+0], [-0], positive or [+Infinity]: the
    values [x] with [x >= 0]. *)
Definition nonneg (x : spec_float) : Prop :=
  match x with
  | S754_zero _ | S754_infinity false | S754_finite false _ _ => True
  | _ => False
  end.

(** A value that is neither NaN nor an infinity. *)
Definition finite (x : spec_float) : Prop :=
  match x with
  | S754_zero _ | S754_finite _ _ _ => True
  | _ => False
  end.

(** ** ES6 notes: the cart ([calculateTotalPrice], [addProductsToCart],
    [sumPrices])

    [[
    const calculateTotalPrice = (items) => {
      return items.reduce((total, item) => total + item.price * item.quantity, 0);
    };

    const addProductsToCart = (cart, ...products) => {
      return [...cart, ...products];
    };

    const sumPrices = (...prices) => {
      return prices.reduce((total, price) => total + price, 0);
    };
    ]]

    The items of [cartItems] have a [quantity]; the products that the notes
    pass to [addProductsToCart] have none, and reading it gives [undefined].
    So [quantity] is optional, and [ToNumber] is the conversion that [*]
    applies to it. *)

Module Cart.

Record item : Set := {
  name : string;
  price : JS.number;
  quantity : option JS.number
}.

(** [ToNumber] of a number or of [undefined]. *)
Definition ToNumber (v : option JS.number) : JS.number :=
  match v with
  | Some n => n
  | None => nan
  end.

(** [item.price * item.quantity] *)
Definition lineTotal (i : item) : JS.number :=
  price i * ToNumber (quantity i).

Definition calculateTotalPrice (items : list item) : JS.number :=
  reduce (fun total item => total + price item * ToNumber (quantity item))
         items 0.

(** The rest parameter collects the arguments after [cart] into the array
    [products]; the result is a new array. *)
Definition addProductsToCart {A : Type} (cart products : list A) : list A :=
  cart ++ products.

Definition sumPrices (prices : list JS.number) : JS.number :=
  reduce (fun total price => total + price) prices 0.

(** [cartItems] of the notes. *)
Definition cartItems : list item :=
  [ {| name := "Laptop"; price := 1000; quantity := Some 2 |};
    {| name := "Phone"; price := 500; quantity := Some 3 |} ].

(** An item with a price and a quantity that are finite and not negative. *)
Definition priced (i : item) : Prop :=
  JS.ge (price i) 0 = true /\ JS.isFinite (price i) = true /\
  exists q, quantity i = Some q /\
            JS.ge q 0 = true /\ JS.isFinite q = true.

End Cart.

(** ** ES6 notes: the iterator of [catalog]

    [[
    [Symbol.iterator]() {
      let index = 0;
      const products = this.products;
      return {
        next() {
          if (index < products.length) {
            return { value: products[index++], done: false };
          } else {
            return { done: true };
          }
        }
      };
    }
    ]]

    The iterator object is the pair of [index] and [products] that its
    [next] closes over.  [index] counts from 0 up to the length of an array,
    where the arithmetic of numbers is exact, and is a natural number
    here. *)

Module Catalog.

Section Iterator.

Context {A : Type}.

Record iterator : Type := {
  index : nat;
  products : list A
}.

(** What [next()] returns; [value] is [None] when the property is absent
    or [undefined]. *)
Record result : Type := {
  value : option A;
  done : bool
}.

(** [catalog[Symbol.iterator]()] for a catalog with these [products]. *)
Definition symbolIterator (products : list A) : iterator :=
  {| index := 0; products := products |}.

Definition next (it : iterator) : result * iterator :=
  if (index it <? length (products it))%nat
  then ({| value := nth_error (products it) (index it); done := false |},
        {| index := S (index it); products := products it |})
  else ({| value := None; done := true |}, it).

(** The iterator after [n] calls of [next()]. *)
Fixpoint after (n : nat) (it : iterator) : iterator :=
  match n with
  | O => it
  | S k => after k (snd (next it))
  end.

(** [for (const product of catalog) { console.log(product); }], from an
    iterator: the values the body is run on, in order.  The loop calls
    [next()] until [done]; [fuel] bounds the number of calls, and [None] is
    a loop that has not ended within [fuel] calls. *)
Fixpoint forOf (fuel : nat) (it : iterator) : option (list (option A)) :=
  match fuel with
  | O => None
  | S fuel =>
      let (r, it') := next it in
      if done r then Some []
      else option_map (cons (value r)) (forOf fuel it')
  end.

End Iterator.

Arguments iterator : clear implicits.
Arguments result : clear implicits.

End Catalog.

(** ** ES6 notes: the proxy that validates the price

    [[
    const productProxy = new Proxy(product, {
      set(target, property, value) {
        if (property === 'price' && value < 0) {
          throw new Error('Price cannot be negative');
        }
        target[property] = value;
        return true;
      }
    });

    try {
      productProxy.price = -500;
    } catch (error) {
      console.error(error.message); // Output: Price cannot be negative
    }
    ]]

    An object is the function from property names to values that reading a
    property computes; a property that is absent reads as [undefined]. *)

Module PriceProxy.

(** The primitive values that can be written to a property. *)
Inductive value : Set :=
| Undefined
| Null
| Boolean (b : bool)
| Number (n : JS.number)
| String (s : string).





Section Trap.

(** The conversion of a string to a number ([StringToNumber] of the
    language), which [value < 0] applies to a string. *)
Variable StringToNumber : string -> JS.number.

Definition ToNumber (v : value) : JS.number :=
  match v with
  | Undefined => nan
  | Null => 0
  | Boolean true => 1
  | Boolean false => 0
  | Number n => n
  | String s => StringToNumber s
  end.





End Trap.

End PriceProxy.

(** ** ES6 notes: the generator [generateOrderId]

    [[
    function* generateOrderId() {
      let id = 1;
      while (true) {
        yield `ORD${id++}`;
      }
    }
    ]]

    The frame of the generator holds [id]; the loop has no exit, so the
    generator is always suspended. *)

Module OrderId.

Record generator : Set := { id : JS.number }.

(** [generateOrderId()] *)
Definition generateOrderId : generator := {| id := 1 |}.

Section Next.

Variable toString : JS.number -> string.

(** [g.next()]: the value is built from [id] before [id++] adds 1. *)
Definition next (g : generator) : IteratorResult * generator :=
  ({| value := Some ("ORD" ++ toString (id g))%string; done := false |},
   {| id := id g + 1 |}).

End Next.

(** The generator after [n] calls of [next()]; the conversion to a string
    does not act on the frame. *)
Fixpoint after (n : nat) (g : generator) : generator :=
  match n with
  | O => g
  | S k => after k {| id := id g + 1 |}
  end.

End OrderId.

(** The number nearest to an integer (the integer itself when it is a
    binary64 value, as the integers up to [2^53] are). *)
Definition numberOfZ (z : Z) : JS.number :=
  SF2Prim (binary_normalize prec emax z 0 false).

(** ** ES6 notes: [applyDiscount]

    [[
    const applyDiscount = (price, discount = 0.10) => {
      return price - (price * discount);
    };
    ]]

    [discount] is [None] when the argument is left out or [undefined]; the
    default is then the binary64 value that the literal [0.10] denotes. *)

Definition applyDiscount (price : JS.number) (discount : option JS.number)
    : JS.number :=
  let discount :=
    match discount with
    | Some d => d
    | None => 0x1.999999999999ap-4
    end in
  price - price * discount.

(** ** More on [processTransactions] *)

(** A transaction that the generator answers with a [yield]. *)
Definition recognised (t : transaction) : bool :=
  String.eqb (type t) "deposit" || String.eqb (type t) "withdraw".

(** The number of values the generator yields before it returns. *)
Definition yields (ts : list transaction) : nat :=
  length (filter recognised ts).

(* ================================================================== *)
(** * Part II: properties                                              *)
(* ================================================================== *)

(** ** The order of binary64 values *)

Lemma lex_compare_Lt (a b : Z * Z * Z) : lex_compare a b = Lt <-> lex_lt a b.
Proof.
  destruct a as [[a1 a2] a3], b as [[b1 b2] b3]. unfold lex_compare, lex_lt.
  destruct (Z.compare_spec a1 b1), (Z.compare_spec a2 b2),
    (Z.compare_spec a3 b3); split; intro; (discriminate || reflexivity || lia).
Qed.

Lemma lex_compare_Eq (a b : Z * Z * Z) : lex_compare a b = Eq <-> a = b.
Proof.
  destruct a as [[a1 a2] a3], b as [[b1 b2] b3]. unfold lex_compare.
  destruct (Z.compare_spec a1 b1), (Z.compare_spec a2 b2),
    (Z.compare_spec a3 b3); split; intro Hab;
    try discriminate; try reflexivity; try (injection Hab; lia).
  subst. reflexivity.
Qed.

(** [SFcompare] is the lexicographic comparison of the keys. *)
Lemma SFcompare_key (x y : spec_float) :
  not_nan x -> not_nan y ->
  SFcompare x y = Some (lex_compare (key x) (key y)).
Proof.
  unfold not_nan.
  destruct x as [sx|[|]| |[|] mx ex], y as [sy|[|]| |[|] my ey];
    intros Hx Hy; try congruence; try reflexivity.
  (* two negative numbers: the greater exponent is the lesser number *)
  simpl. rewrite Z.compare_opp, (Z.compare_antisym ex ey).
  destruct (ex ?= ey)%Z; reflexivity.
Qed.

Lemma SFcompare_not_nan (x y : spec_float) (c : comparison) :
  SFcompare x y = Some c -> not_nan x /\ not_nan y.
Proof.
  unfold not_nan. destruct x, y; simpl; intro H; split; congruence.
Qed.

Lemma SFcompare_Lt (x y : spec_float) :
  SFcompare x y = Some Lt <-> not_nan x /\ not_nan y /\ lex_lt (key x) (key y).
Proof.
  rewrite <- lex_compare_Lt. split.
  - intro H. destruct (SFcompare_not_nan _ _ _ H) as (Hx & Hy).
    rewrite (SFcompare_key _ _ Hx Hy) in H. intuition congruence.
  - intros (Hx & Hy & H). rewrite (SFcompare_key _ _ Hx Hy), H. reflexivity.
Qed.

Lemma SFcompare_Eq (x y : spec_float) :
  SFcompare x y = Some Eq <-> not_nan x /\ not_nan y /\ key x = key y.
Proof.
  rewrite <- lex_compare_Eq. split.
  - intro H. destruct (SFcompare_not_nan _ _ _ H) as (Hx & Hy).
    rewrite (SFcompare_key _ _ Hx Hy) in H. intuition congruence.
  - intros (Hx & Hy & H). rewrite (SFcompare_key _ _ Hx Hy), H. reflexivity.
Qed.

Lemma SFltb_true (x y : spec_float) :
  SFltb x y = true <-> not_nan x /\ not_nan y /\ lex_lt (key x) (key y).
Proof.
  rewrite <- SFcompare_Lt. unfold SFltb.
  destruct (SFcompare x y) as [[| |]|]; split; congruence.
Qed.

Lemma SFeqb_true (x y : spec_float) :
  SFeqb x y = true <-> not_nan x /\ not_nan y /\ key x = key y.
Proof.
  rewrite <- SFcompare_Eq. unfold SFeqb.
  destruct (SFcompare x y) as [[| |]|]; split; congruence.
Qed.

Lemma SFleb_true (x y : spec_float) :
  SFleb x y = true <->
  not_nan x /\ not_nan y /\ (lex_lt (key x) (key y) \/ key x = key y).
Proof.
  unfold SFleb. destruct (SFcompare x y) as [[| |]|] eqn:E.
  - apply SFcompare_Eq in E. tauto.
  - apply SFcompare_Lt in E. tauto.
  - split; [ discriminate | ].
    intros (Hx & Hy & [H|H]).
    + assert (SFcompare x y = Some Lt) by (apply SFcompare_Lt; tauto). congruence.
    + assert (SFcompare x y = Some Eq) by (apply SFcompare_Eq; tauto). congruence.
  - split; [ discriminate | ].
    intros (Hx & Hy & _). rewrite (SFcompare_key _ _ Hx Hy) in E. discriminate.
Qed.

Lemma SFleb_nan_r (x : spec_float) : SFleb x S754_nan = false.
Proof. destruct x; reflexivity. Qed.

Lemma lex_lt_trans (a b c : Z * Z * Z) : lex_lt a b -> lex_lt b c -> lex_lt a c.
Proof.
  destruct a as [[a1 a2] a3], b as [[b1 b2] b3], c as [[c1 c2] c3].
  unfold lex_lt. lia.
Qed.

(** ** Sums and differences of binary64 values that are not negative *)

Section Rounding.

Variables prec emax : Z.

Lemma shr_1_nonneg (mrs : shr_record) :
  (0 <= shr_m mrs)%Z -> (0 <= shr_m (shr_1 mrs))%Z.
Proof using Type.
  destruct mrs as [m r s]. simpl.
  destruct m as [|[p|p|]|[p|p|]]; simpl; lia.
Qed.

Lemma iter_pos_shr_1_nonneg (p : positive) (mrs : shr_record) :
  (0 <= shr_m mrs)%Z -> (0 <= shr_m (iter_pos shr_1 p mrs))%Z.
Proof using Type.
  revert mrs. induction p as [p IH|p IH|]; intros mrs H; simpl.
  - apply IH, IH, shr_1_nonneg, H.
  - apply IH, IH, H.
  - apply shr_1_nonneg, H.
Qed.

Lemma shr_fexp_nonneg (m e : Z) (l : location) :
  (0 <= m)%Z -> (0 <= shr_m (fst (shr_fexp prec emax m e l)))%Z.
Proof using Type.
  intro H. unfold shr_fexp, shr.
  assert (H0 : (0 <= shr_m (shr_record_of_loc m l))%Z)
    by (destruct l as [|[| |]]; exact H).
  destruct (fexp prec emax (Zdigits2 m + e) - e)%Z; simpl; trivial.
  apply iter_pos_shr_1_nonneg, H0.
Qed.

Lemma round_nearest_even_nonneg (m : Z) (l : location) :
  (0 <= m)%Z -> (0 <= round_nearest_even m l)%Z.
Proof using Type.
  intro H. destruct l as [|[| |]]; simpl; trivial; [ | lia ].
  destruct (Z.even m); lia.
Qed.

(** Rounding a mantissa that is not negative, with the sign of a positive
    number, gives [+0], a positive number or [+Infinity]. *)
Lemma binary_round_aux_nonneg (m e : Z) (l : location) :
  (0 <= m)%Z -> nonneg (binary_round_aux prec emax false m e l).
Proof using Type.
  intro H. unfold binary_round_aux.
  assert (H1 := shr_fexp_nonneg m e l H).
  destruct (shr_fexp prec emax m e l) as [mrs' e']. simpl in H1.
  assert (H2 := shr_fexp_nonneg _ e' loc_Exact
                  (round_nearest_even_nonneg _ (loc_of_shr_record mrs') H1)).
  destruct (shr_fexp prec emax _ e' loc_Exact) as [mrs'' e'']. simpl in H2.
  destruct (shr_m mrs'') as [|q|q]; simpl; trivial; [ | lia ].
  destruct (e'' <=? emax - prec)%Z; simpl; trivial.
Qed.

Lemma binary_round_nonneg (q : positive) (e : Z) :
  nonneg (binary_round prec emax false q e).
Proof using Type.
  unfold binary_round.
  destruct (shl_align q e _) as [mz ez].
  apply binary_round_aux_nonneg. lia.
Qed.

Lemma binary_normalize_nonneg (m e : Z) :
  (0 <= m)%Z -> nonneg (binary_normalize prec emax m e false).
Proof using Type.
  intro H. destruct m as [|q|q]; simpl; trivial; [ | lia ].
  apply binary_round_nonneg.
Qed.

(** A sum of two values that are not negative is not negative, unless
    it is not a number at all, which takes an operand that is NaN. *)
Lemma SFadd_nonneg (x y : spec_float) :
  nonneg x -> nonneg y -> nonneg (SFadd prec emax x y).
Proof using Type.
  destruct x as [sx|[|]| |[|] mx ex], y as [sy|[|]| |[|] my ey];
    simpl; trivial; try contradiction; intros _ _.
  - destruct sx, sy; exact I.
  - apply binary_round_nonneg.
Qed.

Lemma digits2_pos_bounds (m : positive) :
  (2 ^ (Z.pos (digits2_pos m) - 1) <= Z.pos m < 2 ^ Z.pos (digits2_pos m))%Z.
Proof using Type.
  induction m as [m IH|m IH|]; simpl digits2_pos.
  - rewrite Pos2Z.inj_succ.
    replace (Z.succ (Z.pos (digits2_pos m)) - 1)%Z
      with (Z.succ (Z.pos (digits2_pos m) - 1)) by lia.
    rewrite !Z.pow_succ_r by lia. lia.
  - rewrite Pos2Z.inj_succ.
    replace (Z.succ (Z.pos (digits2_pos m)) - 1)%Z
      with (Z.succ (Z.pos (digits2_pos m) - 1)) by lia.
    rewrite !Z.pow_succ_r by lia. lia.
  - simpl. lia.
Qed.

Hypothesis prec_pos : (0 < prec)%Z.

(** The mantissa of a valid number has at most [prec] bits, and exactly
    [prec] bits above the least exponent. *)
Lemma bounded_mantissa (m : positive) (e : Z) :
  bounded prec emax m e = true ->
  (Z.pos m < 2 ^ prec)%Z /\
  (SpecFloat.emin prec emax <= e)%Z /\
  ((SpecFloat.emin prec emax < e)%Z -> (2 ^ (prec - 1) <= Z.pos m)%Z).
Proof using prec_pos.
  unfold bounded, canonical_mantissa, fexp.
  rewrite andb_true_iff, Z.eqb_eq. intros (H & _).
  destruct (digits2_pos_bounds m) as (Hlo & Hhi).
  assert (Hd : (Z.pos (digits2_pos m) <= prec)%Z) by lia.
  split; [ | split ].
  - eapply Z.lt_le_trans; [ exact Hhi | ].
    apply Z.pow_le_mono_r; lia.
  - lia.
  - intro He.
    replace prec with (Z.pos (digits2_pos m)) by lia. exact Hlo.
Qed.

Lemma shl_align_fst (m : positive) (e ez : Z) :
  (ez <= e)%Z -> Z.pos (fst (shl_align m e ez)) = (Z.pos m * 2 ^ (e - ez))%Z.
Proof using Type.
  intro H. unfold shl_align.
  destruct (ez - e)%Z as [|d|d] eqn:E; simpl fst.
  - replace (e - ez)%Z with 0%Z by lia. simpl. lia.
  - lia.
  - change (Pos.iter xO m d) with (shift_pos d m).
    rewrite shift_pos_correct, Z.pow_pos_fold.
    replace (e - ez)%Z with (Z.pos d) by lia. lia.
Qed.

Lemma SFsub_finite (sx : bool) (mx : positive) (ex : Z)
    (sy : bool) (my : positive) (ey : Z) :
  SFsub prec emax (S754_finite sx mx ex) (S754_finite sy my ey) =
  binary_normalize prec emax
    (cond_Zopp sx (Z.pos (fst (shl_align mx ex (Z.min ex ey))))
     - cond_Zopp sy (Z.pos (fst (shl_align my ey (Z.min ex ey)))))
    (Z.min ex ey) false.
Proof using Type. reflexivity. Qed.

(** [x - y] is not negative when [x >= y >= 0] and [y] is finite.  The
    finiteness of [y] matters: [Infinity - Infinity] is NaN. *)
Lemma SFsub_nonneg (x y : spec_float) :
  SpecFloat.valid_binary prec emax x = true ->
  SpecFloat.valid_binary prec emax y = true ->
  nonneg x -> nonneg y -> finite y ->
  SFleb y x = true ->
  nonneg (SFsub prec emax x y).
Proof using prec_pos.
  intros Vx Vy Nx Ny Fy Hle.
  destruct x as [sx|[|]| |[|] mx ex], y as [sy|[|]| |[|] my ey];
    try contradiction; try exact I; try discriminate.
  - destruct sx, sy; exact I.
  - rewrite SFsub_finite. apply binary_normalize_nonneg.
    unfold cond_Zopp.
    apply SFleb_true in Hle. destruct Hle as (_ & _ & Hle). simpl in Hle.
    simpl in Vx, Vy.
    destruct (bounded_mantissa mx ex Vx) as (_ & _ & Hnormal).
    destruct (bounded_mantissa my ey Vy) as (Hmy & Hey & _).
    assert (Hcases : (ey < ex \/ (ey = ex /\ Z.pos my <= Z.pos mx))%Z).
    { destruct Hle as [Hle|Hle]; [ lia | ].
      injection Hle as -> ->. lia. }
    destruct Hcases as [Hlt|(-> & Hm)].
    + rewrite Z.min_r by lia.
      rewrite !shl_align_fst by lia.
      rewrite Z.sub_diag, Z.mul_1_r.
      assert (H2 : (2 ^ 1 <= 2 ^ (ex - ey))%Z)
        by (apply Z.pow_le_mono_r; lia).
      assert (Hp : (2 ^ prec = 2 * 2 ^ (prec - 1))%Z).
      { replace prec with (Z.succ (prec - 1)) at 1 by lia.
        apply Z.pow_succ_r. lia. }
      assert (Hmx : (2 ^ (prec - 1) <= Z.pos mx)%Z) by (apply Hnormal; lia).
      change (2 ^ 1)%Z with 2%Z in H2.
      nia.
    + rewrite Z.min_id, !shl_align_fst by lia.
      rewrite Z.sub_diag, !Z.mul_1_r. lia.
Qed.

(** Without the finiteness of [y] the difference may also be NaN. *)
Lemma SFsub_nonneg_or_nan (x y : spec_float) :
  SpecFloat.valid_binary prec emax x = true ->
  SpecFloat.valid_binary prec emax y = true ->
  nonneg x -> nonneg y ->
  SFleb y x = true ->
  nonneg (SFsub prec emax x y) \/ SFsub prec emax x y = S754_nan.
Proof using prec_pos.
  intros Vx Vy Nx Ny Hle.
  destruct y as [sy|[|]| |sy my ey] eqn:Ey; try contradiction.
  - left. apply SFsub_nonneg; simpl; trivial.
  - right. destruct x as [sx|[|]| |[|] mx ex];
      try contradiction; try discriminate; reflexivity.
  - left. apply SFsub_nonneg; simpl; trivial.
Qed.

End Rounding.

(** ** The specification of the primitive operations, on the predicates
    above *)

Lemma is_nan_spec (x : JS.number) :
  PrimFloat.is_nan x = true <-> Prim2SF x = S754_nan.
Proof.
  unfold PrimFloat.is_nan. rewrite negb_true_iff, eqb_spec.
  destruct (SFeqb (Prim2SF x) (Prim2SF x)) eqn:E.
  - apply SFeqb_true in E. unfold not_nan in E. split; [ discriminate | tauto ].
  - split; [ intros _ | reflexivity ].
    destruct (Prim2SF x) eqn:Ex; trivial;
      (assert (SFeqb (Prim2SF x) (Prim2SF x) = true)
        by (rewrite Ex; apply SFeqb_true; unfold not_nan; repeat split; discriminate));
      congruence.
Qed.

Lemma ge_zero_spec (x : JS.number) :
  JS.ge x 0 = true <-> nonneg (Prim2SF x).
Proof.
  unfold JS.ge. rewrite leb_spec.
  change (Prim2SF 0) with (S754_zero false).
  destruct (Prim2SF x) as [s|[|]| |[|] m e]; simpl; split;
    trivial; try discriminate; try contradiction.
Qed.

Lemma isFinite_spec (x : JS.number) :
  JS.isFinite x = true <-> finite (Prim2SF x).
Proof.
  unfold JS.isFinite, PrimFloat.is_finite, PrimFloat.is_infinity.
  rewrite negb_true_iff, orb_false_iff, eqb_spec, abs_spec.
  change (Prim2SF infinity) with (S754_infinity false).
  split.
  - intros (Hnan & Hinf).
    destruct (Prim2SF x) as [s|s| |s m e] eqn:E; simpl; trivial.
    + discriminate.
    + apply is_nan_spec in E. congruence.
  - intro H. split.
    + destruct (PrimFloat.is_nan x) eqn:E; trivial.
      apply is_nan_spec in E. rewrite E in H. contradiction.
    + destruct (Prim2SF x) as [s|s| |s m e]; simpl in *; trivial; contradiction.
Qed.

(** [balance += amount] keeps [balance >= 0] when [amount >= 0]. *)
Lemma add_nonneg (b a : JS.number) :
  JS.ge b 0 = true -> JS.ge a 0 = true -> JS.ge (b + a) 0 = true.
Proof.
  rewrite !ge_zero_spec, add_spec. apply SFadd_nonneg.
Qed.

(** [balance -= amount] keeps [balance >= 0] under the guard
    [balance >= amount] when [amount >= 0] is finite. *)
Lemma sub_nonneg (b a : JS.number) :
  JS.ge b 0 = true -> JS.ge a 0 = true -> JS.isFinite a = true ->
  JS.ge b a = true ->
  JS.ge (b - a) 0 = true.
Proof.
  rewrite !ge_zero_spec, isFinite_spec, sub_spec.
  unfold JS.ge. rewrite leb_spec. intros Hb Ha Hfin Hle.
  apply SFsub_nonneg; trivial; try apply Prim2SF_valid. reflexivity.
Qed.

(** [amount > balance] makes the guard [balance >= amount] fail. *)
Lemma gt_not_ge (a b : JS.number) : JS.gt a b = true -> JS.ge b a = false.
Proof.
  unfold JS.gt, JS.ge. rewrite ltb_spec, leb_spec, SFltb_true.
  intros (_ & _ & Hlt).
  destruct (SFleb (Prim2SF a) (Prim2SF b)) eqn:E; trivial.
  apply SFleb_true in E. destruct E as (_ & _ & E).
  destruct (key (Prim2SF a)) as [[a1 a2] a3], (key (Prim2SF b)) as [[b1 b2] b3].
  unfold lex_lt in *. destruct E as [E|E]; [ lia | ].
  injection E as -> -> ->. lia.
Qed.

Lemma lt_zero_spec (x : JS.number) :
  JS.lt x 0 = false <-> Prim2SF x = S754_nan \/ nonneg (Prim2SF x).
Proof.
  unfold JS.lt. rewrite ltb_spec.
  change (Prim2SF 0) with (S754_zero false).
  destruct (Prim2SF x) as [s|[|]| |[|] m e]; simpl; split;
    auto; try discriminate; intros [H|H]; discriminate || contradiction.
Qed.

Lemma add_not_below_zero (b a : JS.number) :
  JS.lt b 0 = false -> JS.ge a 0 = true -> JS.lt (b + a) 0 = false.
Proof.
  rewrite !lt_zero_spec, ge_zero_spec, add_spec.
  intros [Hb|Hb] Ha.
  - left. rewrite Hb. reflexivity.
  - right. apply SFadd_nonneg; assumption.
Qed.

Lemma sub_not_below_zero (b a : JS.number) :
  JS.lt b 0 = false -> JS.ge a 0 = true -> JS.ge b a = true ->
  JS.lt (b - a) 0 = false.
Proof.
  rewrite !lt_zero_spec, ge_zero_spec, sub_spec.
  unfold JS.ge. rewrite leb_spec. intros Hb Ha Hle.
  destruct Hb as [Hb|Hb].
  - rewrite Hb, SFleb_nan_r in Hle. discriminate.
  - destruct (SFsub_nonneg_or_nan prec emax eq_refl (Prim2SF b) (Prim2SF a));
      auto using Prim2SF_valid.
Qed.

(** [a <= b] and [b < c] give [a < c], on the numbers of the language. *)
Lemma le_lt_trans (a b c : JS.number) :
  JS.le a b = true -> JS.lt b c = true -> JS.lt a c = true.
Proof.
  unfold JS.le, JS.lt. rewrite leb_spec, !ltb_spec.
  rewrite SFleb_true, !SFltb_true.
  intros (Ha & Hb & Hab) (_ & Hc & Hbc). repeat split; trivial.
  destruct Hab as [Hab|Hab].
  - eapply lex_lt_trans; eassumption.
  - rewrite Hab. exact Hbc.
Qed.

Lemma le_not_lt (a b c : JS.number) :
  JS.le a b = true -> JS.lt a c = false -> JS.lt b c = false.
Proof.
  intros Hab Hac. destruct (JS.lt b c) eqn:Hbc; trivial.
  rewrite (le_lt_trans a b c Hab Hbc) in Hac. discriminate.
Qed.

(** ** [getPackageCost] *)

(** C9.  [getPackageCost] returns on every number (NaN and the infinities
    included), its result is one of the four tier values 500, 1000, 1500 and
    2000, and it is monotone: [d1 <= d2] gives
    [getPackageCost d1 <= getPackageCost d2]. *)
Theorem getPackageCost_tiers_monotone :
  (forall d : JS.number, In (getPackageCost d) tiers) /\
  (forall d1 d2 : JS.number,
      JS.le d1 d2 = true ->
      JS.le (getPackageCost d1) (getPackageCost d2) = true).
Proof.
  split.
  - intro d. unfold getPackageCost, tiers.
    destruct (JS.lt d 1000); [ simpl; tauto | ].
    destruct (JS.lt d 2000); [ simpl; tauto | ].
    destruct (JS.lt d 3000); simpl; tauto.
  - intros d1 d2 H. unfold getPackageCost.
    destruct (JS.lt d1 1000) eqn:A1.
    { destruct (JS.lt d2 1000); [ reflexivity | ].
      destruct (JS.lt d2 2000); [ reflexivity | ].
      destruct (JS.lt d2 3000); reflexivity. }
    rewrite (le_not_lt _ _ _ H A1).
    destruct (JS.lt d1 2000) eqn:A2.
    { destruct (JS.lt d2 2000); [ reflexivity | ].
      destruct (JS.lt d2 3000); reflexivity. }
    rewrite (le_not_lt _ _ _ H A2).
    destruct (JS.lt d1 3000) eqn:A3.
    { destruct (JS.lt d2 3000); reflexivity. }
    rewrite (le_not_lt _ _ _ H A3). reflexivity.
Qed.

(** The call of src/example.js: [calculateDistance], whose sines and
    cosines are not modelled, finds about 3941.57 km from New York to Los
    Angeles, which is in the last tier.  NaN is below no bound and falls
    through to the last tier too. *)
Example getPackageCost_example :
  getPackageCost 3941.5 = 2000 /\ getPackageCost nan = 2000 /\
  getPackageCost 999.5 = 500 /\ getPackageCost 1000 = 1000 /\
  getPackageCost neg_infinity = 500.
Proof. repeat split. Qed.

Lemma getPackageCost_tiers_monotone_witness :
  In (getPackageCost 999.5) tiers /\
  JS.le 999.5 2450 = true /\
  JS.le (getPackageCost 999.5) (getPackageCost 2450) = true.
Proof.
  split; [ apply (proj1 getPackageCost_tiers_monotone) | ].
  split; [ reflexivity | ].
  apply (proj2 getPackageCost_tiers_monotone 999.5 2450). reflexivity.
Defined.

(** ** Deduplication with [reduce] *)

Section NonduplicateFacts.

Context {A : Type}.
Variable svz : A -> A -> bool.

Hypothesis svz_refl : forall x, svz x x = true.
Hypothesis svz_sym : forall x y, svz x y = true -> svz y x = true.
Hypothesis svz_trans :
  forall x y z, svz x y = true -> svz y z = true -> svz x z = true.

Local Abbreviation eqv := (same svz).

Lemma same_equivalence : Equivalence eqv.
Proof using svz_refl svz_sym svz_trans.
  split; unfold same.
  - intro x. apply svz_refl.
  - intros x y. apply svz_sym.
  - intros x y z. apply svz_trans.
Qed.

Lemma includes_true (arr : list A) (x : A) :
  includes svz arr x = true <-> exists y, In y arr /\ svz y x = true.
Proof using Type.
  induction arr as [|a arr IH]; simpl.
  - split; [ discriminate | intros (y & [] & _) ].
  - rewrite orb_true_iff, IH. split.
    + intros [H|(y & Hy & H)]; eauto.
    + intros (y & [->|Hy] & H); eauto.
Qed.

Lemma includes_false (arr : list A) (x : A) :
  includes svz arr x = false <-> forall y, In y arr -> svz y x = false.
Proof using Type.
  induction arr as [|a arr IH]; simpl.
  - split; [ intros _ y [] | trivial ].
  - rewrite orb_false_iff, IH. split.
    + intros (Ha & H) y [->|Hy]; auto.
    + intros H; split; auto.
Qed.

Lemma nonduplicate_snoc (l : list A) (x : A) :
  nonduplicate svz (l ++ [x]) = keepFirst svz (nonduplicate svz l) x.
Proof using Type.
  unfold nonduplicate, reduce. rewrite fold_left_app. reflexivity.
Qed.

(** Every element of the result is an element of the input. *)
Lemma nonduplicate_incl (l : list A) (x : A) :
  In x (nonduplicate svz l) -> In x l.
Proof using Type.
  induction l as [|a l IH] using rev_ind; [ trivial | ].
  rewrite nonduplicate_snoc. unfold keepFirst, push.
  rewrite in_app_iff.
  destruct (includes svz (nonduplicate svz l) a); simpl.
  - auto.
  - rewrite in_app_iff. simpl. tauto.
Qed.

(** Every element of the input is the same value as one of the result. *)
Lemma nonduplicate_covers (l : list A) (x : A) :
  In x l -> exists y, In y (nonduplicate svz l) /\ svz y x = true.
Proof using svz_refl.
  induction l as [|a l IH] using rev_ind; [ intros [] | ].
  rewrite nonduplicate_snoc, in_app_iff. unfold keepFirst, push.
  destruct (includes svz (nonduplicate svz l) a) eqn:E; simpl.
  - intros [H|[->|[]]]; [ auto | ]. apply includes_true. exact E.
  - intros [H|[->|[]]].
    + destruct (IH H) as (y & Hy & Hyx). exists y.
      rewrite in_app_iff. auto.
    + exists x. rewrite in_app_iff. simpl. auto.
Qed.

(** The test of the callback: [x] is already in the accumulator exactly
    when the input read so far holds the same value. *)
Lemma includes_nonduplicate (l : list A) (x : A) :
  includes svz (nonduplicate svz l) x = true <->
  exists y, In y l /\ svz y x = true.
Proof using svz_refl svz_trans.
  rewrite includes_true. split.
  - intros (y & Hy & H). exists y. split; [ | exact H ].
    apply nonduplicate_incl. exact Hy.
  - intros (y & Hy & H).
    destruct (nonduplicate_covers l y Hy) as (z & Hz & Hzy).
    exists z. split; [ exact Hz | ]. eapply svz_trans; eassumption.
Qed.

Lemma nonduplicate_InA (l : list A) (x : A) :
  InA eqv x l <-> InA eqv x (nonduplicate svz l).
Proof using svz_refl svz_sym svz_trans.
  rewrite !InA_alt. unfold same. split.
  - intros (y & Hxy & Hy).
    destruct (nonduplicate_covers l y Hy) as (z & Hz & Hzy).
    exists z. split; [ | exact Hz ].
    eapply svz_trans; [ exact Hxy | ]. apply svz_sym. exact Hzy.
  - intros (y & Hxy & Hy). exists y. split; [ exact Hxy | ].
    apply nonduplicate_incl. exact Hy.
Qed.

Lemma nonduplicate_NoDupA (l : list A) : NoDupA eqv (nonduplicate svz l).
Proof using svz_refl svz_sym svz_trans.
  induction l as [|a l IH] using rev_ind; [ constructor | ].
  rewrite nonduplicate_snoc. unfold keepFirst, push.
  destruct (includes svz (nonduplicate svz l) a) eqn:E; simpl; [ exact IH | ].
  apply (NoDupA_app same_equivalence); [ exact IH | repeat constructor; inversion 1 | ].
  intros x Hx Ha. rewrite includes_false in E.
  apply InA_alt in Hx. destruct Hx as (y & Hxy & Hy).
  inversion Ha as [? ? Hxa|? ? H0]; subst; [ | inversion H0 ].
  unfold same in *. specialize (E y Hy).
  rewrite (svz_trans y x a) in E; [ discriminate | | exact Hxa ].
  apply svz_sym. exact Hxy.
Qed.

Lemma first_occurrence_lt (l : list A) (i : nat) (x : A) :
  first_occurrence svz l i x -> (i < length l)%nat.
Proof using Type.
  intros (H & _). apply nth_error_Some. congruence.
Qed.

Lemma first_occurrence_old (l : list A) (a : A) (i : nat) (x : A) :
  (i < length l)%nat ->
  first_occurrence svz (l ++ [a]) i x <-> first_occurrence svz l i x.
Proof using Type.
  intro Hi. unfold first_occurrence.
  rewrite nth_error_app1 by exact Hi. split.
  - intros (H & Hbefore). split; [ exact H | ].
    intros j y Hj Hy. apply (Hbefore j y Hj).
    rewrite nth_error_app1 by lia. exact Hy.
  - intros (H & Hbefore). split; [ exact H | ].
    intros j y Hj Hy. apply (Hbefore j y Hj).
    rewrite nth_error_app1 in Hy by lia. exact Hy.
Qed.

Lemma first_occurrence_new (l : list A) (a : A) (x : A) :
  first_occurrence svz (l ++ [a]) (length l) x <->
  x = a /\ includes svz (nonduplicate svz l) a = false.
Proof using svz_refl svz_trans.
  unfold first_occurrence.
  rewrite nth_error_app2, Nat.sub_diag by lia. simpl. split.
  - intros (H & Hbefore). injection H as <-. split; [ reflexivity | ].
    destruct (includes svz (nonduplicate svz l) a) eqn:E; [ | reflexivity ].
    apply includes_nonduplicate in E. destruct E as (y & Hy & Hya).
    destruct (In_nth_error _ _ Hy) as (j & Hj).
    rewrite <- Hya. apply (Hbefore j y).
    + apply nth_error_Some. congruence.
    + rewrite nth_error_app1; [ exact Hj | ].
      apply nth_error_Some. congruence.
  - intros (-> & E). split; [ reflexivity | ].
    intros j y Hj Hy. rewrite nth_error_app1 in Hy by exact Hj.
    destruct (svz y a) eqn:Hya; [ | reflexivity ].
    rewrite <- E. symmetry. apply includes_nonduplicate.
    exists y. split; [ | exact Hya ]. eapply nth_error_In. exact Hy.
Qed.

(** The result lists the first occurrences of the input, in the order of
    the input: it is read off the input at the increasing positions
    [idxs], which are exactly the positions of a first occurrence. *)
Lemma nonduplicate_order (l : list A) :
  exists idxs : list nat,
    StronglySorted lt idxs /\
    (forall i, In i idxs <-> exists x, first_occurrence svz l i x) /\
    Forall2 (fun i x => nth_error l i = Some x) idxs (nonduplicate svz l).
Proof using svz_refl svz_trans.
  induction l as [|a l IH] using rev_ind.
  - exists []. split; [ constructor | ]. split; [ | constructor ].
    intro i. split; [ intros [] | ].
    intros (x & H). apply first_occurrence_lt in H. simpl in H. lia.
  - destruct IH as (idxs & Hsorted & Hfirst & Hread).
    assert (Hbound : forall i, In i idxs -> (i < length l)%nat).
    { intros i Hi. apply Hfirst in Hi. destruct Hi as (x & Hx).
      eapply first_occurrence_lt. exact Hx. }
    assert (Hread' : Forall2 (fun i x => nth_error (l ++ [a]) i = Some x)
                       idxs (nonduplicate svz l)).
    { clear Hsorted Hfirst.
      induction Hread as [|i x idxs0 xs Hix _ IHr]; constructor.
      - rewrite nth_error_app1; [ exact Hix | ]. apply Hbound. left. reflexivity.
      - apply IHr. intros j Hj. apply Hbound. right. exact Hj. }
    rewrite nonduplicate_snoc. unfold keepFirst, push.
    destruct (includes svz (nonduplicate svz l) a) eqn:E; simpl.
    + exists idxs. split; [ exact Hsorted | ]. split; [ | exact Hread' ].
      intro i. rewrite Hfirst. split.
      * intros (x & Hx). exists x. apply first_occurrence_old; [ | exact Hx ].
        eapply first_occurrence_lt. exact Hx.
      * intros (x & Hx). exists x.
        assert (Hi := first_occurrence_lt _ _ _ Hx).
        rewrite length_app in Hi. simpl in Hi.
        destruct (Nat.eq_dec i (length l)) as [->|Hne].
        -- apply first_occurrence_new in Hx. destruct Hx as (_ & Hx). congruence.
        -- apply first_occurrence_old in Hx; [ exact Hx | lia ].
    + exists (idxs ++ [length l]). split; [ | split ].
      * clear Hfirst Hread Hread'.
        induction Hsorted as [|i idxs0 _ IHs Hall]; simpl.
        -- repeat constructor.
        -- constructor.
           ++ apply IHs. intros j Hj. apply Hbound. right. exact Hj.
           ++ apply Forall_app. split; [ exact Hall | ].
              constructor; [ | constructor ]. apply Hbound. left. reflexivity.
      * intro i. rewrite in_app_iff. simpl. split.
        -- intros [Hi|[<-|[]]].
           ++ apply Hfirst in Hi. destruct Hi as (x & Hx). exists x.
              apply first_occurrence_old; [ | exact Hx ].
              eapply first_occurrence_lt. exact Hx.
           ++ exists a. apply first_occurrence_new. auto.
        -- intros (x & Hx).
           assert (Hi := first_occurrence_lt _ _ _ Hx).
           rewrite length_app in Hi. simpl in Hi.
           destruct (Nat.eq_dec i (length l)) as [->|Hne]; [ auto | ].
           left. apply Hfirst. exists x.
           apply first_occurrence_old in Hx; [ exact Hx | lia ].
      * apply Forall2_app; [ exact Hread' | ].
        constructor; [ | constructor ].
        rewrite nth_error_app2, Nat.sub_diag by lia. reflexivity.
Qed.

End NonduplicateFacts.

(** *** SameValueZero on numbers is an equivalence *)

Lemma sameValueZero_spec (x y : JS.number) :
  sameValueZero x y = true <->
  (not_nan (Prim2SF x) /\ not_nan (Prim2SF y) /\ key (Prim2SF x) = key (Prim2SF y))
  \/ (Prim2SF x = S754_nan /\ Prim2SF y = S754_nan).
Proof.
  unfold sameValueZero.
  rewrite orb_true_iff, andb_true_iff, eqb_spec, SFeqb_true, !is_nan_spec.
  reflexivity.
Qed.

Lemma sameValueZero_refl (x : JS.number) : sameValueZero x x = true.
Proof.
  apply sameValueZero_spec. unfold not_nan.
  destruct (Prim2SF x); [ left | left | right | left ];
    repeat split; discriminate.
Qed.

Lemma sameValueZero_sym (x y : JS.number) :
  sameValueZero x y = true -> sameValueZero y x = true.
Proof.
  rewrite !sameValueZero_spec. intros [(? & ? & ?)|(? & ?)]; auto.
Qed.

Lemma sameValueZero_trans (x y z : JS.number) :
  sameValueZero x y = true -> sameValueZero y z = true ->
  sameValueZero x z = true.
Proof.
  rewrite !sameValueZero_spec. unfold not_nan.
  intros [(? & ? & ?)|(? & ?)] [(? & ? & ?)|(? & ?)]; try congruence.
  - left. split; [ assumption | ]. split; [ assumption | congruence ].
  - right. auto.
Qed.

(** C10.  On every array of numbers the reduce-based deduplication returns
    the first occurrences of the input in the order of the input: no two
    entries of the result are the same value, a value is in the result
    exactly when it is in the input, every entry of the result is an element
    of the input, and the result is the input read at the increasing
    positions that hold a first occurrence.  Two numbers are the same value
    when [includes] takes them for the same (SameValueZero: NaN is the same
    as NaN, and [-0] the same as [0]).  On [1,3,4,5,6,4,6,9,8] the result is
    [1,3,4,5,6,9,8]. *)
Theorem nonduplicate_first_occurrences :
  (forall l : list JS.number,
      NoDupA (same sameValueZero) (nonduplicate sameValueZero l) /\
      (forall x, InA (same sameValueZero) x l <->
                 InA (same sameValueZero) x (nonduplicate sameValueZero l)) /\
      (forall x, In x (nonduplicate sameValueZero l) -> In x l) /\
      exists idxs : list nat,
        StronglySorted lt idxs /\
        (forall i, In i idxs <-> exists x, first_occurrence sameValueZero l i x) /\
        Forall2 (fun i x => nth_error l i = Some x) idxs
                (nonduplicate sameValueZero l)) /\
  nonduplicateNumber = [1; 3; 4; 5; 6; 9; 8].
Proof.
  split; [ | reflexivity ].
  intro l. split; [ | split; [ | split ] ].
  - apply nonduplicate_NoDupA;
      [ exact sameValueZero_refl | exact sameValueZero_sym
      | exact sameValueZero_trans ].
  - intro x. apply nonduplicate_InA;
      [ exact sameValueZero_refl | exact sameValueZero_sym
      | exact sameValueZero_trans ].
  - intro x. apply nonduplicate_incl.
  - apply nonduplicate_order;
      [ exact sameValueZero_refl | exact sameValueZero_trans ].
Qed.

Lemma nonduplicate_first_occurrences_witness :
  NoDupA (same sameValueZero) (nonduplicate sameValueZero [2; 7; 2]) /\
  (In 7 (nonduplicate sameValueZero [2; 7; 2]) -> In 7 [2; 7; 2]) /\
  nonduplicateNumber = [1; 3; 4; 5; 6; 9; 8].
Proof.
  destruct nonduplicate_first_occurrences as (Hall & Hnotes).
  destruct (Hall [2; 7; 2]) as (Hnodup & _ & Hincl & _).
  split; [ exact Hnodup | ]. split; [ exact (Hincl 7) | exact Hnotes ].
Defined.

(** The deduplication on an array with NaN twice and both zeros: NaN is
    kept once, and [-0] is dropped after [0]. *)
Example nonduplicate_nan_zero :
  nonduplicate sameValueZero [nan; 0; nan; neg_zero; 7; 0] = [nan; 0; 7].
Proof. reflexivity. Qed.

(** ** The generator [processTransactions] *)

(** The notes' own run: the five calls of [next()] and the values their
    comments announce. *)
Example processTransactions_notes :
  values showNumber 5 (processTransactions transactions) =
  [ Some "Deposited $100, new balance: $100";
    Some "Withdrew $50, new balance: $50";
    Some "Deposited $200, new balance: $250";
    Some "Withdrew $30, new balance: $220";
    Some "All transactions processed, final balance: $220" ]%string.
Proof. vm_compute. reflexivity. Qed.

(** A sixth call finds the generator completed. *)
Example processTransactions_exhausted :
  next showNumber (after showNumber 5 (processTransactions transactions)) =
  ({| value := None; done := true |}, Completed).
Proof. vm_compute. reflexivity. Qed.

Section GeneratorFacts.

Variable toString : JS.number -> string.

Lemma resume_sound (pending : list transaction) (balance : JS.number) :
  JS.ge balance 0 = true -> Forall admissible pending ->
  sound (snd (resume toString balance pending)).
Proof using Type.
  revert balance.
  induction pending as [|t rest IH]; intros b Hb Hok; simpl; [ exact I | ].
  inversion Hok as [|? ? (Hamount & Hfinite) Hrest]; subst.
  destruct (String.eqb (type t) "deposit") eqn:Ed; simpl.
  { split; [ apply add_nonneg; assumption | exact Hrest ]. }
  destruct (String.eqb (type t) "withdraw") eqn:Ew; simpl.
  - apply String.eqb_eq in Ew.
    destruct (JS.ge b (amount t)) eqn:Eg; simpl.
    + split; [ apply sub_nonneg; auto | exact Hrest ].
    + split; assumption.
  - apply IH; assumption.
Qed.

Lemma next_sound (g : generator) : sound g -> sound (snd (next toString g)).
Proof using Type.
  destruct g as [[b p]|]; simpl; [ | trivial ].
  intros (Hb & Hok). apply resume_sound; assumption.
Qed.

Lemma after_sound (n : nat) (g : generator) :
  sound g -> sound (after toString n g).
Proof using Type.
  revert g. induction n as [|n IH]; intros g Hg; simpl; [ exact Hg | ].
  apply IH, next_sound, Hg.
Qed.

Lemma sound_balance_nonneg (g : generator) : sound g -> balance_nonneg g.
Proof using Type.
  destruct g as [f|]; simpl; tauto.
Qed.

End GeneratorFacts.

(** *** The balance is never below zero, whatever the amounts *)

Section GeneratorSolvent.

Variable toString : JS.number -> string.

Lemma resume_solvent (pending : list transaction) (balance : JS.number) :
  JS.lt balance 0 = false ->
  Forall (fun t => JS.ge (amount t) 0 = true) pending ->
  solvent (snd (resume toString balance pending)).
Proof using Type.
  revert balance.
  induction pending as [|t rest IH]; intros b Hb Hok; simpl; [ exact I | ].
  inversion Hok as [|? ? Hamount Hrest]; subst.
  destruct (String.eqb (type t) "deposit"); simpl.
  { split; [ apply add_not_below_zero; assumption | exact Hrest ]. }
  destruct (String.eqb (type t) "withdraw"); simpl.
  - destruct (JS.ge b (amount t)) eqn:Eg; simpl.
    + split; [ apply sub_not_below_zero; assumption | exact Hrest ].
    + split; assumption.
  - apply IH; assumption.
Qed.

(** For amounts that are not negative, finite or not, no call of
    [next()] leaves a balance below zero. *)
Lemma processTransactions_never_below_zero (ts : list transaction) (n : nat) :
  Forall (fun t => JS.ge (amount t) 0 = true) ts ->
  solvent (after toString n (processTransactions ts)).
Proof using Type.
  intro Hts.
  assert (H0 : solvent (processTransactions ts))
    by (simpl; split; [ reflexivity | exact Hts ]).
  revert H0. generalize (processTransactions ts) as g.
  induction n as [|n IH]; intros g Hg; simpl; [ exact Hg | ].
  apply IH. destruct g as [[b p]|]; simpl; [ | exact I ].
  destruct Hg as (Hb & Hp). apply resume_solvent; assumption.
Qed.

End GeneratorSolvent.

(** C8, as amended.  When every amount is not negative and every withdrawal
    is of a finite amount, the balance of the generator is not negative
    after any number of calls of [next()]; and a withdrawal of more than the
    balance yields the message of insufficient funds and leaves the balance
    as it was. *)
Theorem processTransactions_balance_nonneg (toString : JS.number -> string) :
  (forall ts : list transaction,
      Forall admissible ts ->
      forall n : nat, balance_nonneg (after toString n (processTransactions ts))) /\
  (forall (t : transaction) (rest : list transaction) (b : JS.number),
      type t = "withdraw"%string ->
      JS.gt (amount t) b = true ->
      next toString (Suspended {| balance := b; pending := t :: rest |}) =
      ({| value := Some (insufficient toString (amount t) b); done := false |},
       Suspended {| balance := b; pending := rest |})).
Proof.
  split.
  - intros ts Hts n. apply sound_balance_nonneg, after_sound.
    simpl. split; [ reflexivity | exact Hts ].
  - intros t rest b Ht Hgt. simpl. rewrite Ht. simpl.
    rewrite (gt_not_ge _ _ Hgt). reflexivity.
Qed.

Lemma transactions_admissible : Forall admissible transactions.
Proof.
  repeat constructor; simpl; discriminate || reflexivity.
Defined.

Lemma processTransactions_balance_nonneg_witness :
  Forall admissible transactions /\
  balance_nonneg (after showNumber 3 (processTransactions transactions)) /\
  next showNumber
    (Suspended {| balance := 20;
                  pending := [ {| type := "withdraw"; amount := 30 |} ] |}) =
  ({| value := Some "Insufficient funds for withdrawal of $30, balance remains: $20"%string;
      done := false |},
   Suspended {| balance := 20; pending := [] |}).
Proof.
  split; [ exact transactions_admissible | ]. split.
  - apply (proj1 (processTransactions_balance_nonneg showNumber) transactions
             transactions_admissible 3%nat).
  - apply (proj2 (processTransactions_balance_nonneg showNumber)
             {| type := "withdraw"; amount := 30 |} [] 20);
      reflexivity.
Defined.

(** C8, as stated, fails: amounts that are not negative do not keep the
    balance from being NaN.  A deposit of [Infinity] and a withdrawal of
    [Infinity] pass the guard [balance >= amount] and leave
    [Infinity - Infinity]. *)
Lemma processTransactions_infinity :
  Forall (fun t => JS.ge (amount t) 0 = true)
    [ {| type := "deposit"; amount := infinity |};
      {| type := "withdraw"; amount := infinity |} ] /\
  values showNumber 2
    (processTransactions
       [ {| type := "deposit"; amount := infinity |};
         {| type := "withdraw"; amount := infinity |} ]) =
  [ Some "Deposited $Infinity, new balance: $Infinity";
    Some "Withdrew $Infinity, new balance: $NaN" ]%string /\
  ~ balance_nonneg
      (after showNumber 2
         (processTransactions
            [ {| type := "deposit"; amount := infinity |};
              {| type := "withdraw"; amount := infinity |} ])).
Proof.
  split; [ repeat constructor | ].
  split; [ vm_compute; reflexivity | ].
  vm_compute. discriminate.
Qed.

(* ================================================================== *)
(** * Part III: further properties of the snippets                     *)
(* ================================================================== *)

(** ** The tiers of [getPackageCost] *)

Lemma lex_lt_total (a b : Z * Z * Z) : lex_lt a b \/ a = b \/ lex_lt b a.
Proof.
  destruct a as [[a1 a2] a3], b as [[b1 b2] b3]. unfold lex_lt.
  destruct (Z.compare_spec a1 b1), (Z.compare_spec a2 b2),
    (Z.compare_spec a3 b3); subst; auto; lia.
Qed.

Lemma lex_lt_irrefl (a b : Z * Z * Z) : lex_lt a b -> lex_lt b a \/ b = a -> False.
Proof.
  destruct a as [[a1 a2] a3], b as [[b1 b2] b3]. unfold lex_lt.
  intros H [H'|H']; [ lia | ]. injection H' as -> -> ->. lia.
Qed.

(** [a < b] is false exactly when one of the two is NaN or [b <= a]. *)
Lemma lt_false_iff (a b : JS.number) :
  JS.lt a b = false <->
  PrimFloat.is_nan a = true \/ PrimFloat.is_nan b = true \/ JS.le b a = true.
Proof.
  unfold JS.lt, JS.le. rewrite ltb_spec, leb_spec, !is_nan_spec, SFleb_true.
  destruct (SFltb (Prim2SF a) (Prim2SF b)) eqn:E.
  - apply SFltb_true in E. destruct E as (Ha & Hb & Hlt). unfold not_nan in *.
    split; [ discriminate | ].
    intros [H|[H|(_ & _ & H)]]; try contradiction.
    exfalso. eapply lex_lt_irrefl; eassumption.
  - split; [ intros _ | reflexivity ].
    destruct (Prim2SF a) eqn:Ea; try (now left);
      destruct (Prim2SF b) eqn:Eb; try (now right; left);
      right; right; (split; [ discriminate | split; [ discriminate | ] ]);
      rewrite <- Ea, <- Eb;
      (destruct (lex_lt_total (key (Prim2SF b)) (key (Prim2SF a)))
        as [H|[H|H]]; [ now left | now right | ]);
      (assert (SFltb (Prim2SF a) (Prim2SF b) = true)
        by (apply SFltb_true; rewrite Ea, Eb; unfold not_nan;
            split; [ discriminate | split; [ discriminate | ] ];
            rewrite <- Ea, <- Eb; exact H));
      congruence.
Qed.

Lemma lt_true_not_nan (a b : JS.number) :
  JS.lt a b = true -> PrimFloat.is_nan a = false.
Proof.
  unfold JS.lt. rewrite ltb_spec, SFltb_true. intros (Ha & _).
  destruct (PrimFloat.is_nan a) eqn:E; trivial.
  apply is_nan_spec in E. contradiction.
Qed.

Lemma le_true_not_nan (a b : JS.number) :
  JS.le a b = true -> PrimFloat.is_nan b = false.
Proof.
  unfold JS.le. rewrite leb_spec, SFleb_true. intros (_ & Hb & _).
  destruct (PrimFloat.is_nan b) eqn:E; trivial.
  apply is_nan_spec in E. contradiction.
Qed.

Lemma le_trans (a b c : JS.number) :
  JS.le a b = true -> JS.le b c = true -> JS.le a c = true.
Proof.
  unfold JS.le. rewrite !leb_spec, !SFleb_true.
  intros (Ha & Hb & Hab) (_ & Hc & Hbc). repeat split; trivial.
  destruct Hab as [Hab|Hab], Hbc as [Hbc|Hbc].
  - left. eapply lex_lt_trans; eassumption.
  - left. rewrite <- Hbc. exact Hab.
  - left. rewrite Hab. exact Hbc.
  - right. congruence.
Qed.

Lemma lt_le_false (a b : JS.number) :
  JS.lt a b = true -> JS.le b a = true -> False.
Proof.
  unfold JS.lt, JS.le. rewrite ltb_spec, leb_spec, SFltb_true, SFleb_true.
  intros (_ & _ & Hlt) (_ & _ & Hle). eapply lex_lt_irrefl; eassumption.
Qed.

(** [d < c] and [c' <= d] clash when [c <= c']. *)
Lemma order_clash (d c c' : JS.number) :
  JS.le c c' = true -> JS.lt d c = true -> JS.le c' d = true -> False.
Proof.
  intros Hcc Hlt Hle. apply (lt_le_false d c Hlt).
  eapply le_trans; eassumption.
Qed.

Lemma lt_neq (a b : JS.number) : JS.lt a b = true -> a <> b.
Proof.
  intros H ->. apply (lt_le_false b b H).
  unfold JS.lt, JS.le in *. rewrite ltb_spec in H. rewrite leb_spec.
  apply SFltb_true in H. apply SFleb_true. tauto.
Qed.

(** Closes a goal whose hypotheses place a number on both sides of a
    bound, or make a number that compares a NaN. *)
Ltac order_false :=
  exfalso;
  match goal with
  | H : JS.lt ?d ?c = true, L : JS.le ?c' ?d = true |- _ =>
      apply (order_clash d c c'); [ reflexivity | exact H | exact L ]
  | H : JS.lt ?d _ = true, N : PrimFloat.is_nan ?d = true |- _ =>
      rewrite (lt_true_not_nan _ _ H) in N; discriminate N
  | H : JS.le _ ?d = true, N : PrimFloat.is_nan ?d = true |- _ =>
      rewrite (le_true_not_nan _ _ H) in N; discriminate N
  | H : ?a = ?b |- _ =>
      first [ solve [ apply (lt_neq a b); [ reflexivity | exact H ] ]
            | solve [ apply (lt_neq b a); [ reflexivity | exact (eq_sym H) ] ] ]
  | H : ?x = true, H' : ?x = false |- _ => congruence
  end.

(** Closes one direction of a statement about a tier, from the tier the
    number is in. *)
Ltac tier_goal :=
  intros;
  repeat match goal with
         | H : _ /\ _ |- _ => destruct H
         | H : _ \/ _ |- _ => destruct H
         end;
  first [ assumption | reflexivity | solve [ auto ] | order_false ].

(** Every number is in exactly one tier. *)
Lemma tier_cases (d : JS.number) :
  JS.lt d 1000 = true \/
  (JS.le 1000 d = true /\ JS.lt d 2000 = true) \/
  (JS.le 2000 d = true /\ JS.lt d 3000 = true) \/
  (JS.le 3000 d = true \/ PrimFloat.is_nan d = true).
Proof.
  destruct (JS.lt d 1000) eqn:A1; [ now left | right ].
  destruct (JS.lt d 2000) eqn:A2.
  { left. split; [ | reflexivity ].
    apply lt_false_iff in A1. destruct A1 as [N|[N|L]]; trivial;
      [ order_false | discriminate N ]. }
  right. destruct (JS.lt d 3000) eqn:A3.
  { left. split; [ | reflexivity ].
    apply lt_false_iff in A2. destruct A2 as [N|[N|L]]; trivial;
      [ order_false | discriminate N ]. }
  right. apply lt_false_iff in A3. destruct A3 as [N|[N|L]]; auto.
  discriminate N.
Qed.

Lemma le_lt_false (a b : JS.number) : JS.le a b = true -> JS.lt b a = false.
Proof.
  intro H. destruct (JS.lt b a) eqn:E; trivial.
  exfalso. eapply lt_le_false; eassumption.
Qed.

Lemma nan_lt_false (a b : JS.number) :
  PrimFloat.is_nan a = true -> JS.lt a b = false.
Proof. intro H. apply lt_false_iff. now left. Qed.

(** X1.  The bounds of the tiers: the cost is 500 exactly below 1000, 1000
    exactly from 1000 and below 2000, 1500 exactly from 2000 and below
    3000, and 2000 exactly from 3000 on or for NaN.  Each bound belongs to
    the tier above it. *)
Theorem getPackageCost_bounds (d : JS.number) :
  (getPackageCost d = 500 <-> JS.lt d 1000 = true) /\
  (getPackageCost d = 1000 <->
     JS.le 1000 d = true /\ JS.lt d 2000 = true) /\
  (getPackageCost d = 1500 <->
     JS.le 2000 d = true /\ JS.lt d 3000 = true) /\
  (getPackageCost d = 2000 <->
     JS.le 3000 d = true \/ PrimFloat.is_nan d = true).
Proof.
  assert (M12 : JS.le 1000 2000 = true) by reflexivity.
  assert (M23 : JS.le 2000 3000 = true) by reflexivity.
  assert (M13 : JS.le 1000 3000 = true) by reflexivity.
  destruct (tier_cases d) as [T|[(L & T)|[(L & T)|T]]].
  - assert (E : getPackageCost d = 500)
      by (unfold getPackageCost; rewrite T; reflexivity).
    rewrite E. repeat split; tier_goal.
  - assert (E : getPackageCost d = 1000).
    { unfold getPackageCost.
      rewrite (le_lt_false _ _ L), T. reflexivity. }
    rewrite E. repeat split; tier_goal.
  - assert (E : getPackageCost d = 1500).
    { unfold getPackageCost.
      rewrite (le_lt_false _ _ (le_trans _ _ _ M12 L)), (le_lt_false _ _ L), T.
      reflexivity. }
    rewrite E. repeat split; tier_goal.
  - assert (E : getPackageCost d = 2000).
    { unfold getPackageCost. destruct T as [L|N].
      - rewrite (le_lt_false _ _ (le_trans _ _ _ M13 L)),
          (le_lt_false _ _ (le_trans _ _ _ M23 L)), (le_lt_false _ _ L).
        reflexivity.
      - rewrite !(nan_lt_false _ _ N). reflexivity. }
    rewrite E. repeat split; tier_goal.
Qed.

(** ** The deduplication is idempotent *)

Section NonduplicateAgain.

Context {A : Type}.
Variable svz : A -> A -> bool.

Hypothesis svz_refl : forall x, svz x x = true.
Hypothesis svz_sym : forall x y, svz x y = true -> svz y x = true.
Hypothesis svz_trans :
  forall x y z, svz x y = true -> svz y z = true -> svz x z = true.

Lemma NoDupA_snoc_inv (l : list A) (x : A) :
  NoDupA (same svz) (l ++ [x]) ->
  NoDupA (same svz) l /\ includes svz l x = false.
Proof using svz_refl svz_sym svz_trans.
  intro H.
  assert (Heq := same_equivalence svz svz_refl svz_sym svz_trans).
  apply NoDupA_rev in H; [ | exact Heq ].
  rewrite rev_app_distr in H. simpl in H.
  inversion H as [|? ? Hnotin Hrest]; subst. split.
  - apply NoDupA_rev in Hrest; [ | exact Heq ].
    rewrite rev_involutive in Hrest. exact Hrest.
  - apply includes_false. intros y Hy.
    destruct (svz y x) eqn:E; trivial.
    exfalso. apply Hnotin. apply InA_rev. apply InA_alt.
    exists y. split; [ | exact Hy ]. apply svz_sym. exact E.
Qed.

(** An array without two entries of the same value is returned as it
    is. *)
Lemma nonduplicate_fixed (l : list A) :
  NoDupA (same svz) l -> nonduplicate svz l = l.
Proof using svz_refl svz_sym svz_trans.
  induction l as [|x l IH] using rev_ind; [ reflexivity | ].
  intro H. apply NoDupA_snoc_inv in H. destruct H as (Hl & Hx).
  rewrite nonduplicate_snoc, (IH Hl). unfold keepFirst, push.
  rewrite Hx. reflexivity.
Qed.

Lemma nonduplicate_length (l : list A) :
  (length (nonduplicate svz l) <= length l)%nat.
Proof using Type.
  induction l as [|x l IH] using rev_ind; [ simpl; lia | ].
  rewrite nonduplicate_snoc. unfold keepFirst, push.
  destruct (includes svz (nonduplicate svz l) x); simpl;
    rewrite !length_app; simpl; lia.
Qed.

End NonduplicateAgain.

(** X2.  Deduplicating twice is deduplicating once; an array of numbers
    without two entries of the same value is returned unchanged, and the
    result is never longer than the input. *)
Theorem nonduplicate_idempotent (l : list JS.number) :
  nonduplicate sameValueZero (nonduplicate sameValueZero l)
    = nonduplicate sameValueZero l /\
  (NoDupA (same sameValueZero) l -> nonduplicate sameValueZero l = l) /\
  (length (nonduplicate sameValueZero l) <= length l)%nat.
Proof.
  split; [ | split ].
  - apply nonduplicate_fixed;
      [ exact sameValueZero_refl | exact sameValueZero_sym
      | exact sameValueZero_trans | ].
    apply nonduplicate_NoDupA;
      [ exact sameValueZero_refl | exact sameValueZero_sym
      | exact sameValueZero_trans ].
  - apply nonduplicate_fixed;
      [ exact sameValueZero_refl | exact sameValueZero_sym
      | exact sameValueZero_trans ].
  - apply nonduplicate_length.
Qed.

Lemma nonduplicate_idempotent_witness :
  nonduplicate sameValueZero (nonduplicate sameValueZero [3; nan; 3; nan])
    = nonduplicate sameValueZero [3; nan; 3; nan] /\
  nonduplicate sameValueZero [3; nan] = [3; nan].
Proof.
  destruct (nonduplicate_idempotent [3; nan; 3; nan]) as (H1 & _).
  destruct (nonduplicate_idempotent [3; nan]) as (_ & H2 & _).
  split; [ exact H1 | ]. apply H2.
  apply (nonduplicate_NoDupA sameValueZero sameValueZero_refl
           sameValueZero_sym sameValueZero_trans [3; nan]).
Defined.

(** ** The generator returns after one call for every transaction it
    answers, and one more *)

Section GeneratorEnds.

Variable toString : JS.number -> string.

Lemma resume_yields (ts : list transaction) (b : JS.number) :
  match yields ts with
  | O =>
      resume toString b ts =
      ({| value := Some (processed toString b); done := true |}, Completed)
  | S k =>
      done (fst (resume toString b ts)) = false /\
      exists f, snd (resume toString b ts) = Suspended f /\
                yields (pending f) = k
  end.
Proof using Type.
  revert b. unfold yields.
  induction ts as [|t rest IH]; intro b; simpl; [ reflexivity | ].
  unfold recognised.
  destruct (String.eqb (type t) "deposit") eqn:Ed; simpl.
  { split; [ reflexivity | ]. eauto. }
  destruct (String.eqb (type t) "withdraw") eqn:Ew; simpl.
  - destruct (JS.ge b (amount t)); simpl; (split; [ reflexivity | ]; eauto).
  - apply IH.
Qed.

Lemma after_Completed (n : nat) : after toString n Completed = Completed.
Proof using Type. induction n as [|n IH]; simpl; trivial. Qed.

Lemma after_add (a b : nat) (g : generator) :
  after toString (a + b) g = after toString b (after toString a g).
Proof using Type.
  revert g. induction a as [|a IH]; intro g; simpl; [ reflexivity | apply IH ].
Qed.

Lemma ends_from (k : nat) (f : frame) :
  yields (pending f) = k ->
  (forall n, (n < k)%nat ->
     done (fst (next toString (after toString n (Suspended f)))) = false) /\
  (exists b, next toString (after toString k (Suspended f)) =
     ({| value := Some (processed toString b); done := true |}, Completed)).
Proof using Type.
  revert f. induction k as [|k IH]; intros f Hk.
  - split; [ intros n Hn; lia | ].
    assert (H := resume_yields (pending f) (balance f)). rewrite Hk in H.
    exists (balance f). exact H.
  - assert (H := resume_yields (pending f) (balance f)). rewrite Hk in H.
    destruct H as (Hdone & f' & Hf' & Hk').
    destruct (IH f' Hk') as (Hbefore & Hlast). split.
    + intros [|n] Hn; simpl; [ exact Hdone | ].
      rewrite Hf'. apply Hbefore. lia.
    + simpl. rewrite Hf'. exact Hlast.
Qed.

End GeneratorEnds.

(** X3.  The generator yields once for every deposit and every withdrawal,
    whatever their outcome, and passes over the other transactions: with
    [k] such transactions the first [k] calls of [next()] are not done, the
    call after them returns the final message with [done: true], and every
    later call returns [{ value: undefined, done: true }]. *)
Theorem processTransactions_ends (toString : JS.number -> string)
    (ts : list transaction) :
  (forall n, (n < yields ts)%nat ->
     done (fst (next toString (after toString n (processTransactions ts))))
       = false) /\
  (exists b,
     next toString (after toString (yields ts) (processTransactions ts)) =
     ({| value := Some (processed toString b); done := true |}, Completed)) /\
  (forall n, (yields ts < n)%nat ->
     next toString (after toString n (processTransactions ts)) =
     ({| value := None; done := true |}, Completed)).
Proof.
  destruct (ends_from toString (yields ts) {| balance := 0; pending := ts |}
              eq_refl) as (Hbefore & b & Hlast).
  split; [ exact Hbefore | ]. split; [ exists b; exact Hlast | ].
  intros n Hn.
  replace n with (yields ts + S (n - S (yields ts)))%nat by lia.
  rewrite after_add. unfold processTransactions in *.
  cbn [after]. rewrite Hlast. cbn [snd].
  rewrite after_Completed. reflexivity.
Qed.

(** ** The totals of the cart *)

Lemma SFmul_nonneg (x y : spec_float) :
  nonneg x -> finite x -> nonneg y -> finite y ->
  nonneg (SFmul prec emax x y).
Proof.
  destruct x as [sx|[|]| |[|] mx ex], y as [sy|[|]| |[|] my ey];
    simpl; trivial; try contradiction; intros _ _ _ _.
  apply binary_round_aux_nonneg. lia.
Qed.

Lemma mul_nonneg (a b : JS.number) :
  JS.ge a 0 = true -> JS.isFinite a = true ->
  JS.ge b 0 = true -> JS.isFinite b = true ->
  JS.ge (a * b) 0 = true.
Proof.
  rewrite !ge_zero_spec, !isFinite_spec, mul_spec. apply SFmul_nonneg.
Qed.

Lemma add_nan_l (a b : JS.number) :
  PrimFloat.is_nan a = true -> PrimFloat.is_nan (a + b) = true.
Proof.
  rewrite !is_nan_spec, add_spec. intros ->. reflexivity.
Qed.

Lemma add_nan_r (a b : JS.number) :
  PrimFloat.is_nan b = true -> PrimFloat.is_nan (a + b) = true.
Proof.
  rewrite !is_nan_spec, add_spec. intros ->.
  destruct (Prim2SF a); reflexivity.
Qed.

Lemma mul_nan_r (a b : JS.number) :
  PrimFloat.is_nan b = true -> PrimFloat.is_nan (a * b) = true.
Proof.
  rewrite !is_nan_spec, mul_spec. intros ->.
  destruct (Prim2SF a); reflexivity.
Qed.

(** The running sums of [reduce] with [+]. *)
Lemma sum_from_nonneg (prices : list JS.number) (total : JS.number) :
  JS.ge total 0 = true ->
  Forall (fun p => JS.ge p 0 = true) prices ->
  JS.ge (fold_left PrimFloat.add prices total) 0 = true.
Proof.
  revert total. induction prices as [|p prices IH]; intros total Ht Hp; simpl.
  - exact Ht.
  - inversion Hp; subst. apply IH; [ apply add_nonneg | ]; assumption.
Qed.

Lemma sum_from_nan_total (prices : list JS.number) (total : JS.number) :
  PrimFloat.is_nan total = true ->
  PrimFloat.is_nan (fold_left PrimFloat.add prices total) = true.
Proof.
  revert total. induction prices as [|p prices IH]; intros total Ht; simpl.
  - exact Ht.
  - apply IH, add_nan_l, Ht.
Qed.

Lemma sum_from_nan (prices : list JS.number) (total : JS.number) :
  Exists (fun p => PrimFloat.is_nan p = true) prices ->
  PrimFloat.is_nan (fold_left PrimFloat.add prices total) = true.
Proof.
  intro H. revert total.
  induction H as [p prices Hp|p prices _ IH]; intro total; simpl.
  - apply sum_from_nan_total, add_nan_r, Hp.
  - apply IH.
Qed.

(** The total of a cart is the sum of its line totals, added in the order
    of the cart. *)
Lemma total_from_lines (items : list Cart.item) (total : JS.number) :
  fold_left
    (fun total item => total + Cart.price item * Cart.ToNumber (Cart.quantity item))
    items total
  = fold_left PrimFloat.add (map Cart.lineTotal items) total.
Proof.
  revert total. induction items as [|i items IH]; intro total; simpl.
  - reflexivity.
  - apply IH.
Qed.

Lemma priced_lineTotal (i : Cart.item) :
  Cart.priced i -> JS.ge (Cart.lineTotal i) 0 = true.
Proof.
  intros (Hp & Fp & q & Hq & Hq0 & Fq). unfold Cart.lineTotal.
  rewrite Hq. simpl. apply mul_nonneg; assumption.
Qed.

(** The totals that the notes announce. *)
Example cart_notes :
  Cart.calculateTotalPrice Cart.cartItems = 3500 /\
  Cart.sumPrices [1000; 500; 300] = 1800 /\
  Cart.calculateTotalPrice [] = 0.
Proof. repeat split. Qed.

(** X4.  The total of a cart whose prices and quantities are finite and
    not negative is not negative (and so is a number, possibly
    [Infinity]). *)
Theorem calculateTotalPrice_nonneg (items : list Cart.item) :
  Forall Cart.priced items ->
  JS.ge (Cart.calculateTotalPrice items) 0 = true.
Proof.
  intro H. unfold Cart.calculateTotalPrice, reduce.
  rewrite total_from_lines. apply sum_from_nonneg; [ reflexivity | ].
  induction H as [|i items Hi _ IH]; simpl; constructor.
  - apply priced_lineTotal, Hi.
  - exact IH.
Qed.

Lemma cartItems_priced : Forall Cart.priced Cart.cartItems.
Proof.
  repeat constructor; simpl; eexists; repeat split; reflexivity.
Defined.

Lemma calculateTotalPrice_nonneg_witness :
  Forall Cart.priced Cart.cartItems /\
  JS.ge (Cart.calculateTotalPrice Cart.cartItems) 0 = true.
Proof.
  split; [ exact cartItems_priced | ].
  exact (calculateTotalPrice_nonneg Cart.cartItems cartItems_priced).
Defined.

(** X5.  One line that is not a number spoils the total: when some item
    has a line total that is NaN, the total is NaN, whatever the other
    items are.  An item without a [quantity], as the products of
    [addProductsToCart] are, is such an item. *)
Theorem calculateTotalPrice_nan (items : list Cart.item) :
  (Exists (fun i => PrimFloat.is_nan (Cart.lineTotal i) = true) items ->
   PrimFloat.is_nan (Cart.calculateTotalPrice items) = true) /\
  (Exists (fun i => Cart.quantity i = None) items ->
   PrimFloat.is_nan (Cart.calculateTotalPrice items) = true).
Proof.
  assert (Hlines :
    Exists (fun i => PrimFloat.is_nan (Cart.lineTotal i) = true) items ->
    PrimFloat.is_nan (Cart.calculateTotalPrice items) = true).
  { intro H. unfold Cart.calculateTotalPrice, reduce.
    rewrite total_from_lines. apply sum_from_nan.
    induction H as [i items Hi|i items _ IH]; simpl.
    - left. exact Hi.
    - right. exact IH. }
  split; [ exact Hlines | ].
  intro H. apply Hlines. revert H. apply Exists_impl.
  intros i Hi. unfold Cart.lineTotal. rewrite Hi. apply mul_nan_r. reflexivity.
Qed.

Lemma calculateTotalPrice_nan_witness :
  PrimFloat.is_nan
    (Cart.calculateTotalPrice
       [ {| Cart.name := "Laptop"; Cart.price := 1000; Cart.quantity := Some 2 |};
         {| Cart.name := "Phone"; Cart.price := 500; Cart.quantity := None |} ])
  = true.
Proof.
  apply (proj2 (calculateTotalPrice_nan _)).
  right. left. reflexivity.
Defined.

(** X6.  The total after [addProductsToCart] is the total of the cart
    before, carried on over the added products in their order; a single
    added product adds its line total. *)
Theorem calculateTotalPrice_addProductsToCart
    (cart products : list Cart.item) (p : Cart.item) :
  Cart.calculateTotalPrice (Cart.addProductsToCart cart products) =
    reduce (fun total item =>
              total + Cart.price item * Cart.ToNumber (Cart.quantity item))
           products (Cart.calculateTotalPrice cart) /\
  Cart.calculateTotalPrice (Cart.addProductsToCart cart [p]) =
    Cart.calculateTotalPrice cart + Cart.lineTotal p.
Proof.
  unfold Cart.calculateTotalPrice, Cart.addProductsToCart, reduce.
  rewrite !fold_left_app. split; reflexivity.
Qed.

(** X7.  [sumPrices] of prices that are not negative is not negative, and
    one NaN among the prices makes the sum NaN. *)
Theorem sumPrices_sign (prices : list JS.number) :
  (Forall (fun p => JS.ge p 0 = true) prices ->
   JS.ge (Cart.sumPrices prices) 0 = true) /\
  (Exists (fun p => PrimFloat.is_nan p = true) prices ->
   PrimFloat.is_nan (Cart.sumPrices prices) = true).
Proof.
  unfold Cart.sumPrices, reduce. split.
  - apply sum_from_nonneg. reflexivity.
  - apply sum_from_nan.
Qed.

Lemma sumPrices_sign_witness :
  JS.ge (Cart.sumPrices [1000; 500; infinity]) 0 = true /\
  PrimFloat.is_nan (Cart.sumPrices [1000; nan; 300]) = true.
Proof.
  split.
  - apply (proj1 (sumPrices_sign _)). repeat constructor.
  - apply (proj2 (sumPrices_sign _)). right. left. reflexivity.
Defined.

(** ** The iterator of the catalog *)

Section CatalogFacts.

Context {A : Type}.

Lemma skipn_nth_error (l : list A) (i : nat) :
  (i < length l)%nat ->
  exists x, nth_error l i = Some x /\ skipn i l = x :: skipn (S i) l.
Proof using Type.
  revert i. induction l as [|a l IH]; intros i Hi; simpl in Hi; [ lia | ].
  destruct i as [|i].
  - exists a. split; reflexivity.
  - destruct (IH i) as (x & Hx & Hskip); [ lia | ].
    exists x. split; [ exact Hx | exact Hskip ].
Qed.

(** The iterator after [k] calls: [index] has advanced to [k], and stays
    at the length of the array once it is there. *)
Lemma after_index (products : list A) (k : nat) :
  Catalog.after k (Catalog.symbolIterator products) =
  {| Catalog.index := Nat.min k (length products);
     Catalog.products := products |}.
Proof using Type.
  unfold Catalog.symbolIterator.
  assert (G : forall i, (i <= length products)%nat ->
            Catalog.after k
              {| Catalog.index := i; Catalog.products := products |} =
            {| Catalog.index := Nat.min (i + k) (length products);
               Catalog.products := products |}).
  { induction k as [|k IH]; intros i Hi; simpl.
    - rewrite Nat.add_0_r, Nat.min_l by exact Hi. reflexivity.
    - unfold Catalog.next. simpl.
      destruct (i <? length products)%nat eqn:E; simpl.
      + apply Nat.ltb_lt in E. rewrite IH by lia.
        replace (S i + k)%nat with (i + S k)%nat by lia. reflexivity.
      + apply Nat.ltb_ge in E. rewrite IH by exact Hi.
        rewrite !Nat.min_r by lia. reflexivity. }
  rewrite G by lia. reflexivity.
Qed.

Lemma forOf_from (products : list A) (fuel i : nat) :
  (i <= length products)%nat ->
  Catalog.forOf fuel {| Catalog.index := i; Catalog.products := products |} =
  if (length products - i <? fuel)%nat
  then Some (map Some (skipn i products))
  else None.
Proof using Type.
  revert i. induction fuel as [|fuel IH]; intros i Hi; [ reflexivity | ].
  simpl. unfold Catalog.next. simpl.
  destruct (i <? length products)%nat eqn:E; simpl.
  - apply Nat.ltb_lt in E. rewrite IH by lia.
    destruct (skipn_nth_error products i E) as (x & Hx & Hskip).
    rewrite Hx, Hskip.
    replace (length products - i <? S fuel)%nat
      with (length products - S i <? fuel)%nat.
    + destruct (length products - S i <? fuel)%nat; reflexivity.
    + destruct (length products - S i <? fuel)%nat eqn:F;
        symmetry; [ apply Nat.ltb_lt; apply Nat.ltb_lt in F
                  | apply Nat.ltb_ge; apply Nat.ltb_ge in F ]; lia.
  - apply Nat.ltb_ge in E.
    replace (length products - i <? S fuel)%nat with true
      by (symmetry; apply Nat.ltb_lt; lia).
    rewrite skipn_all2 by exact E. reflexivity.
Qed.

(** X8.  The calls of [next()] on a fresh iterator: call number [k]
    (from 0) returns the product at position [k] with [done: false] while
    [k] is below the length, and [{ done: true }] without a value at every
    call from the length on, where the iterator no longer changes. *)
Theorem catalog_next (products : list A) (k : nat) :
  let it := Catalog.after k (Catalog.symbolIterator products) in
  ((k < length products)%nat ->
     exists x, nth_error products k = Some x /\
       Catalog.next it =
       ({| Catalog.value := Some x; Catalog.done := false |},
        Catalog.after (S k) (Catalog.symbolIterator products))) /\
  ((length products <= k)%nat ->
     Catalog.next it =
     ({| Catalog.value := None; Catalog.done := true |}, it)).
Proof using Type.
  cbv zeta. rewrite !after_index. unfold Catalog.next.
  cbn [Catalog.index Catalog.products]. split.
  - intro Hk. rewrite (Nat.min_l k), (Nat.min_l (S k)) by lia.
    destruct (skipn_nth_error products k Hk) as (x & Hx & _).
    exists x. split; [ exact Hx | ].
    replace (k <? length products)%nat with true
      by (symmetry; apply Nat.ltb_lt; exact Hk).
    rewrite Hx. reflexivity.
  - intro Hk. rewrite Nat.min_r by lia.
    rewrite Nat.ltb_irrefl. reflexivity.
Qed.

(** X9.  [for (const product of catalog)] runs its body on the products
    of the catalog, each once and in their order, and ends: it takes one
    call of [next()] more than there are products, and no fewer. *)
Theorem catalog_forOf (products : list A) (fuel : nat) :
  ((length products < fuel)%nat ->
     Catalog.forOf fuel (Catalog.symbolIterator products)
       = Some (map Some products)) /\
  ((fuel <= length products)%nat ->
     Catalog.forOf fuel (Catalog.symbolIterator products) = None).
Proof using Type.
  unfold Catalog.symbolIterator. rewrite forOf_from by lia.
  rewrite Nat.sub_0_r. simpl skipn. split; intro H.
  - replace (length products <? fuel)%nat with true
      by (symmetry; apply Nat.ltb_lt; exact H).
    reflexivity.
  - replace (length products <? fuel)%nat with false
      by (symmetry; apply Nat.ltb_ge; exact H).
    reflexivity.
Qed.

End CatalogFacts.

Lemma catalog_next_witness :
  (exists x, nth_error ["Laptop"; "Phone"]%string 1 = Some x /\
     Catalog.next (Catalog.after 1 (Catalog.symbolIterator ["Laptop"; "Phone"]%string)) =
     ({| Catalog.value := Some x; Catalog.done := false |},
      Catalog.after 2 (Catalog.symbolIterator ["Laptop"; "Phone"]%string))) /\
  Catalog.next (Catalog.after 5 (Catalog.symbolIterator ["Laptop"; "Phone"]%string)) =
  ({| Catalog.value := None; Catalog.done := true |},
   Catalog.after 5 (Catalog.symbolIterator ["Laptop"; "Phone"]%string)).
Proof.
  split.
  - apply (proj1 (catalog_next ["Laptop"; "Phone"]%string 1)). simpl. lia.
  - apply (proj2 (catalog_next ["Laptop"; "Phone"]%string 5)). simpl. lia.
Defined.

Lemma catalog_forOf_witness :
  Catalog.forOf 3 (Catalog.symbolIterator ["Laptop"; "Phone"]%string)
    = Some [Some "Laptop"; Some "Phone"]%string /\
  Catalog.forOf 2 (Catalog.symbolIterator ["Laptop"; "Phone"]%string) = None.
Proof.
  split.
  - apply (proj1 (catalog_forOf ["Laptop"; "Phone"]%string 3)). simpl. lia.
  - apply (proj2 (catalog_forOf ["Laptop"; "Phone"]%string 2)). simpl. lia.
Defined.

(** ** The proxy that validates the price *)

Section ProxyFacts.

Variable StringToNumber : string -> JS.number.


End ProxyFacts.



(** ** Integers as binary64 values, and [id++] *)

Example numberOfZ_examples :
  numberOfZ 1 = 1 /\ numberOfZ 220 = 220 /\
  numberOfZ 9007199254740991 = 9007199254740991 /\
  numberOfZ 9007199254740992 = 9007199254740992.
Proof. repeat split. Qed.

(** *** Rounding a value that needs no rounding *)

Lemma iter_pos_iter {T : Type} (f : T -> T) (p : positive) (x : T) :
  iter_pos f p x = Pos.iter f x p.
Proof.
  revert x. induction p as [p IH|p IH|]; intro x; simpl.
  - rewrite !IH, !Pos.iter_swap. reflexivity.
  - rewrite !IH. reflexivity.
  - reflexivity.
Qed.

(** Shifting out the [k] zero bits that were shifted in loses nothing. *)
Lemma shr_shifted (k m : positive) :
  iter_pos shr_1 k
    {| shr_m := Z.pos (Pos.iter xO m k); shr_r := false; shr_s := false |} =
  {| shr_m := Z.pos m; shr_r := false; shr_s := false |}.
Proof.
  rewrite iter_pos_iter. revert m.
  induction k as [|k IH] using Pos.peano_ind; intro m.
  - reflexivity.
  - rewrite (Pos.iter_succ_r k _ shr_1), (Pos.iter_succ k _ xO). simpl shr_1.
    apply IH.
Qed.

Lemma digits2_pos_unique (m : positive) (n : Z) :
  (2 ^ (n - 1) <= Z.pos m < 2 ^ n)%Z -> Z.pos (digits2_pos m) = n.
Proof.
  intros (Hlo & Hhi).
  destruct (digits2_pos_bounds m) as (Dlo & Dhi).
  assert (Hn : (0 < n)%Z).
  { destruct (Z.le_gt_cases n 0) as [Hle|]; [ exfalso | lia ].
    destruct (Z.eq_dec n 0) as [->|Hne].
    - rewrite Z.pow_0_r in Hhi. lia.
    - rewrite Z.pow_neg_r in Hhi by lia. lia. }
  destruct (Z.lt_trichotomy (Z.pos (digits2_pos m)) n) as [H|[H|H]]; trivial.
  - assert (2 ^ Z.pos (digits2_pos m) <= 2 ^ (n - 1))%Z
      by (apply Z.pow_le_mono_r; lia). lia.
  - assert (2 ^ n <= 2 ^ (Z.pos (digits2_pos m) - 1))%Z
      by (apply Z.pow_le_mono_r; lia). lia.
Qed.

Lemma shifted_pos (m M : positive) (k : positive) :
  Z.pos M = (Z.pos m * 2 ^ Z.pos k)%Z -> M = Pos.iter xO m k.
Proof.
  intro H. change (Pos.iter xO m k) with (shift_pos k m).
  apply Pos2Z.inj. rewrite shift_pos_correct, Z.pow_pos_fold. lia.
Qed.

(** A mantissa that is a valid mantissa shifted left by [k] bits rounds to
    the value it is, exactly. *)
Lemma binary_round_aux_exact (s : bool) (m M : positive) (e k : Z) :
  (0 <= k)%Z ->
  Z.pos M = (Z.pos m * 2 ^ k)%Z ->
  bounded prec emax m (e + k) = true ->
  binary_round_aux prec emax s (Z.pos M) e loc_Exact
    = S754_finite s m (e + k).
Proof.
  intros Hk HM Hb.
  assert (Hb' := Hb). unfold bounded, canonical_mantissa in Hb'.
  apply andb_true_iff in Hb'. destruct Hb' as (Hcanon & Hmax).
  apply Z.eqb_eq in Hcanon.
  assert (Hsecond :
    shr_fexp prec emax (Z.pos m) (e + k) loc_Exact =
    ({| shr_m := Z.pos m; shr_r := false; shr_s := false |}, (e + k)%Z)).
  { unfold shr_fexp. simpl Zdigits2. rewrite Hcanon, Z.sub_diag. reflexivity. }
  unfold binary_round_aux.
  assert (Hfirst :
    shr_fexp prec emax (Z.pos M) e loc_Exact =
    ({| shr_m := Z.pos m; shr_r := false; shr_s := false |}, (e + k)%Z)).
  { destruct k as [|k|k]; [ | | lia ].
    - rewrite Z.pow_0_r, Z.mul_1_r in HM. injection HM as ->.
      rewrite Z.add_0_r in *. exact Hsecond.
    - apply shifted_pos in HM. subst M.
      unfold shr_fexp. simpl Zdigits2.
      assert (Hd : Z.pos (digits2_pos (Pos.iter xO m k))
                   = (Z.pos (digits2_pos m) + Z.pos k)%Z).
      { apply digits2_pos_unique.
        change (Pos.iter xO m k) with (shift_pos k m).
        rewrite shift_pos_correct, Z.pow_pos_fold.
        destruct (digits2_pos_bounds m) as (Dlo & Dhi).
        replace (Z.pos (digits2_pos m) + Z.pos k - 1)%Z
          with ((Z.pos (digits2_pos m) - 1) + Z.pos k)%Z by lia.
        rewrite !Z.pow_add_r by lia.
        assert (0 < 2 ^ Z.pos k)%Z by (apply Z.pow_pos_nonneg; lia).
        nia. }
      rewrite Hd.
      replace (Z.pos (digits2_pos m) + Z.pos k + e)%Z
        with (Z.pos (digits2_pos m) + (e + Z.pos k))%Z by lia.
      rewrite Hcanon.
      replace (e + Z.pos k - e)%Z with (Z.pos k) by lia.
      unfold shr, shr_record_of_loc. rewrite shr_shifted. reflexivity. }
  rewrite Hfirst. cbn [shr_m loc_of_shr_record round_nearest_even].
  rewrite Hsecond. cbn [shr_m]. rewrite Hmax. reflexivity.
Qed.

Lemma shl_align_snd (m : positive) (e ez : Z) :
  (ez <= e)%Z -> snd (shl_align m e ez) = ez.
Proof.
  intro H. unfold shl_align.
  destruct (ez - e)%Z as [|d|d] eqn:E; simpl snd; lia.
Qed.

(** The binary64 value of a positive integer below [2^53]: a mantissa of
    53 bits and the exponent that makes it the integer. *)
Lemma normal_form (z : Z) :
  (0 < z < 2 ^ 53)%Z ->
  exists m e,
    Z.pos m = (z * 2 ^ (- e))%Z /\ (-52 <= e <= 0)%Z /\
    bounded prec emax m e = true /\
    binary_normalize prec emax z 0 false = S754_finite false m e.
Proof.
  intros (Hpos & Hlt). destruct z as [|p|p]; try lia.
  destruct (digits2_pos_bounds p) as (Dlo & Dhi).
  simpl binary_normalize. unfold binary_round.
  remember (Z.pos (digits2_pos p)) as d eqn:Ed.
  assert (Hd : (1 <= d <= 53)%Z).
  { split; [ lia | ].
    destruct (Z.le_gt_cases d 53) as [|Hgt]; trivial.
    assert (2 ^ 53 <= 2 ^ (d - 1))%Z by (apply Z.pow_le_mono_r; lia). lia. }
  assert (Hfexp : fexp prec emax (d + 0) = (d - 53)%Z).
  { unfold fexp, SpecFloat.emin, prec, emax. lia. }
  rewrite Hfexp.
  assert (Hm := shl_align_fst p 0 (d - 53) ltac:(lia)).
  assert (He := shl_align_snd p 0 (d - 53) ltac:(lia)).
  destruct (shl_align p 0 (d - 53)) as [mz ez]. cbn [fst snd] in Hm, He.
  subst ez.
  exists mz, (d - 53)%Z.
  replace (0 - (d - 53))%Z with (- (d - 53))%Z in Hm by lia.
  assert (Hdm : Z.pos (digits2_pos mz) = 53%Z).
  { apply digits2_pos_unique. rewrite Hm.
    assert (P1 : (2 ^ (53 - 1) = 2 ^ (d - 1) * 2 ^ (- (d - 53)))%Z)
      by (rewrite <- Z.pow_add_r by lia; f_equal; lia).
    assert (P2 : (2 ^ 53 = 2 ^ d * 2 ^ (- (d - 53)))%Z)
      by (rewrite <- Z.pow_add_r by lia; f_equal; lia).
    rewrite P1, P2.
    assert (0 < 2 ^ (- (d - 53)))%Z by (apply Z.pow_pos_nonneg; lia).
    nia. }
  assert (Hb : bounded prec emax mz (d - 53) = true).
  { unfold bounded, canonical_mantissa, fexp, SpecFloat.emin. rewrite Hdm.
    apply andb_true_iff. split; [ apply Z.eqb_eq | apply Z.leb_le ];
      unfold prec, emax; lia. }
  split; [ exact Hm | ]. split; [ lia | ]. split; [ exact Hb | ].
  replace (d - 53)%Z with ((d - 53) + 0)%Z at 2 by lia.
  apply binary_round_aux_exact; [ lia | rewrite Z.pow_0_r; lia | ].
  rewrite Z.add_0_r. exact Hb.
Qed.

Lemma Prim2SF_numberOfZ (z : Z) :
  (0 < z < 2 ^ 53)%Z ->
  Prim2SF (numberOfZ z) = binary_normalize prec emax z 0 false.
Proof.
  intro H. unfold numberOfZ. apply Prim2SF_SF2Prim.
  destruct (normal_form z H) as (m & e & _ & _ & Hb & ->). exact Hb.
Qed.

(** [id++] is exact below [2^53]. *)
Lemma succ_exact (z : Z) :
  (0 < z)%Z -> (z + 1 < 2 ^ 53)%Z -> numberOfZ z + 1 = numberOfZ (z + 1).
Proof.
  intros Hz Hz1. apply Prim2SF_inj.
  rewrite add_spec, !Prim2SF_numberOfZ by lia.
  destruct (normal_form z ltac:(lia)) as (m & e & Hm & He & Hb & ->).
  destruct (normal_form (z + 1) ltac:(lia)) as (m' & e' & Hm' & He' & Hb' & ->).
  change (Prim2SF 1) with (S754_finite false 4503599627370496 (-52)).
  unfold SF64add, SFadd.
  rewrite Z.min_r by lia. unfold cond_Zopp.
  rewrite !shl_align_fst by lia.
  assert (H52 : (2 ^ 52 = 4503599627370496)%Z) by reflexivity.
  assert (Hsum : (Z.pos m * 2 ^ (e - -52)
                  + 4503599627370496 * 2 ^ (-52 - -52)
                  = (z + 1) * 2 ^ 52)%Z).
  { assert (P : (2 ^ (- e) * 2 ^ (e - -52) = 2 ^ 52)%Z)
      by (rewrite <- Z.pow_add_r by lia; f_equal; lia).
    rewrite Hm, Z.sub_diag, Z.pow_0_r, <- Z.mul_assoc, P, H52. ring. }
  rewrite Hsum.
  assert (Hpos : (0 < (z + 1) * 2 ^ 52)%Z) by lia.
  destruct ((z + 1) * 2 ^ 52)%Z as [|M|M] eqn:EM; try lia.
  simpl binary_normalize. unfold binary_round.
  assert (HdM : (54 <= Z.pos (digits2_pos M))%Z).
  { destruct (digits2_pos_bounds M) as (_ & Dhi).
    destruct (Z.le_gt_cases 54 (Z.pos (digits2_pos M))) as [|Hgt]; trivial.
    assert (2 ^ Z.pos (digits2_pos M) <= 2 ^ 53)%Z
      by (apply Z.pow_le_mono_r; lia).
    rewrite EM in Dhi || idtac. lia. }
  assert (Hal : shl_align M (-52)
                  (fexp prec emax (Z.pos (digits2_pos M) + -52)) = (M, (-52)%Z)).
  { unfold shl_align, fexp, SpecFloat.emin, prec, emax.
    destruct (Z.max (Z.pos (digits2_pos M) + -52 - 53) (3 - 1024 - 53) - -52)%Z
      eqn:E; try reflexivity. lia. }
  rewrite Hal.
  replace e' with (-52 + (e' + 52))%Z by lia.
  apply binary_round_aux_exact; [ lia | | ].
  - assert (P : (2 ^ (- e') * 2 ^ (e' + 52) = 2 ^ 52)%Z)
      by (rewrite <- Z.pow_add_r by lia; f_equal; lia).
    rewrite Hm', <- Z.mul_assoc, P. symmetry. exact EM.
  - replace (-52 + (e' + 52))%Z with e' by lia. exact Hb'.
Qed.

Lemma numberOfZ_inj (z1 z2 : Z) :
  (0 < z1 < 2 ^ 53)%Z -> (0 < z2 < 2 ^ 53)%Z ->
  numberOfZ z1 = numberOfZ z2 -> z1 = z2.
Proof.
  intros H1 H2 E. apply (f_equal Prim2SF) in E.
  rewrite !Prim2SF_numberOfZ in E by assumption.
  destruct (normal_form z1 H1) as (m1 & e1 & Hm1 & He1 & _ & E1).
  destruct (normal_form z2 H2) as (m2 & e2 & Hm2 & He2 & _ & E2).
  rewrite E1, E2 in E. injection E as -> ->.
  assert (0 < 2 ^ (- e2))%Z by (apply Z.pow_pos_nonneg; lia).
  nia.
Qed.

(** ** The generator [generateOrderId] *)

Lemma OrderId_after_S (n : nat) (g : OrderId.generator) :
  OrderId.after (S n) g = {| OrderId.id := OrderId.id (OrderId.after n g) + 1 |}.
Proof.
  revert g. induction n as [|n IH]; intro g; [ reflexivity | ].
  change (OrderId.after (S (S n)) g)
    with (OrderId.after (S n) {| OrderId.id := OrderId.id g + 1 |}).
  rewrite IH. reflexivity.
Qed.

Lemma OrderId_after_add (a b : nat) (g : OrderId.generator) :
  OrderId.after (a + b) g = OrderId.after b (OrderId.after a g).
Proof.
  revert g. induction a as [|a IH]; intro g; simpl; [ reflexivity | apply IH ].
Qed.

(** Counting from [z]: after [n] calls [id] is [z + n], below [2^53]. *)
Lemma OrderId_counts (n : nat) (z : Z) :
  (0 < z)%Z -> (z + Z.of_nat n < 2 ^ 53)%Z ->
  OrderId.id (OrderId.after n {| OrderId.id := numberOfZ z |})
    = numberOfZ (z + Z.of_nat n).
Proof.
  revert z. induction n as [|n IH]; intros z Hz Hn.
  - simpl. f_equal. lia.
  - cbn [OrderId.after OrderId.id]. rewrite succ_exact by lia.
    rewrite IH by lia. f_equal. lia.
Qed.

Lemma OrderId_stuck (n : nat) :
  OrderId.after n {| OrderId.id := 9007199254740992 |}
    = {| OrderId.id := 9007199254740992 |}.
Proof.
  induction n as [|n IH]; [ reflexivity | ].
  cbn [OrderId.after OrderId.id].
  change (9007199254740992 + 1) with 9007199254740992. exact IH.
Qed.

(** The two calls of the notes. *)
Example generateOrderId_notes :
  fst (OrderId.next showNumber OrderId.generateOrderId) =
    {| value := Some "ORD1"%string; done := false |} /\
  fst (OrderId.next showNumber (OrderId.after 1 OrderId.generateOrderId)) =
    {| value := Some "ORD2"%string; done := false |}.
Proof. split; vm_compute; reflexivity. Qed.

(** X11.  Below [2^53] the generator counts: call number [n + 1] of
    [next()] yields ["ORD"] followed by the number [n + 1], is not done,
    and the [id] it is built from differs from the [id] of every earlier
    call. *)
Theorem generateOrderId_counts (toString : JS.number -> string) (n : nat) :
  (Z.of_nat n + 1 < 2 ^ 53)%Z ->
  OrderId.next toString (OrderId.after n OrderId.generateOrderId) =
    ({| value := Some ("ORD" ++ toString (numberOfZ (Z.of_nat n + 1)))%string;
        done := false |},
     OrderId.after (S n) OrderId.generateOrderId) /\
  forall m : nat, (m < n)%nat ->
    OrderId.id (OrderId.after m OrderId.generateOrderId)
      <> OrderId.id (OrderId.after n OrderId.generateOrderId).
Proof.
  intro Hn.
  assert (Hid : forall k : nat, (Z.of_nat k + 1 < 2 ^ 53)%Z ->
            OrderId.id (OrderId.after k OrderId.generateOrderId)
              = numberOfZ (Z.of_nat k + 1)).
  { intros k Hk.
    change OrderId.generateOrderId with {| OrderId.id := numberOfZ 1 |}.
    rewrite OrderId_counts by lia. f_equal. lia. }
  split.
  - unfold OrderId.next. rewrite OrderId_after_S, Hid by exact Hn.
    reflexivity.
  - intros m Hm E. rewrite !Hid in E by lia.
    apply numberOfZ_inj in E; lia.
Qed.

Lemma generateOrderId_counts_witness :
  OrderId.next showNumber (OrderId.after 2 OrderId.generateOrderId) =
    ({| value := Some ("ORD" ++ showNumber (numberOfZ (Z.of_nat 2 + 1)))%string;
        done := false |},
     OrderId.after 3 OrderId.generateOrderId) /\
  OrderId.id (OrderId.after 1 OrderId.generateOrderId)
    <> OrderId.id (OrderId.after 2 OrderId.generateOrderId).
Proof.
  destruct (generateOrderId_counts showNumber 2 eq_refl) as (H1 & H2).
  split; [ exact H1 | ]. apply H2. lia.
Defined.

(** X12.  The count stops at [2^53], where adding 1 changes nothing: from
    call number [2^53] on, every call of [next()] yields the same value,
    built from 9007199254740992, so the IDs are no longer unique. *)
Theorem generateOrderId_repeats (toString : JS.number -> string) (n : nat) :
  (2 ^ 53 - 1 <= Z.of_nat n)%Z ->
  OrderId.next toString (OrderId.after n OrderId.generateOrderId) =
    ({| value := Some ("ORD" ++ toString 9007199254740992)%string;
        done := false |},
     OrderId.after n OrderId.generateOrderId).
Proof.
  intro Hn.
  assert (Hid : OrderId.after n OrderId.generateOrderId
                = {| OrderId.id := 9007199254740992 |}).
  { remember (Z.to_nat (2 ^ 53 - 2)) as N eqn:EN.
    assert (HN : Z.of_nat N = 9007199254740990%Z)
      by (rewrite EN, Z2Nat.id; [ reflexivity | discriminate ]).
    clear EN.
    replace n with (N + S (n - S N))%nat by lia.
    rewrite OrderId_after_add.
    assert (H0 : OrderId.after N OrderId.generateOrderId
                 = {| OrderId.id := 9007199254740991 |}).
    { assert (H := OrderId_counts N 1 ltac:(lia) ltac:(lia)).
      change {| OrderId.id := numberOfZ 1 |} with OrderId.generateOrderId in H.
      rewrite HN in H.
      change (numberOfZ (1 + 9007199254740990)) with 9007199254740991 in H.
      destruct (OrderId.after N OrderId.generateOrderId) as [x].
      cbn [OrderId.id] in H. rewrite H. reflexivity. }
    rewrite H0. cbn [OrderId.after OrderId.id].
    change (9007199254740991 + 1) with 9007199254740992.
    apply OrderId_stuck. }
  rewrite Hid. unfold OrderId.next. cbn [OrderId.id].
  change (9007199254740992 + 1) with 9007199254740992. reflexivity.
Qed.

Lemma generateOrderId_repeats_witness :
  OrderId.next showNumber
    (OrderId.after (Z.to_nat 9007199254740991) OrderId.generateOrderId) =
    ({| value := Some ("ORD" ++ showNumber 9007199254740992)%string;
        done := false |},
     OrderId.after (Z.to_nat 9007199254740991) OrderId.generateOrderId).
Proof.
  apply (generateOrderId_repeats showNumber (Z.to_nat 9007199254740991)).
  rewrite Z2Nat.id; [ | discriminate ]. discriminate.
Defined.

(** ** [applyDiscount] *)

(** The two calls of the notes. *)
Example applyDiscount_notes :
  applyDiscount 100 None = 90 /\
  applyDiscount 100 (Some 0x1.999999999999ap-3) = 80.
Proof. split; reflexivity. Qed.

Lemma SFmul_one (x : spec_float) :
  SpecFloat.valid_binary prec emax x = true ->
  SFmul prec emax x (S754_finite false 4503599627370496 (-52)) = x.
Proof.
  destruct x as [sx|sx| |sx mx ex]; simpl; intro V;
    try (rewrite xorb_false_r; reflexivity); try reflexivity.
  rewrite xorb_false_r.
  replace ex with ((ex + -52) + 52)%Z at 2 by lia.
  apply binary_round_aux_exact; [ lia | | ].
  - rewrite Pos2Z.inj_mul. reflexivity.
  - replace (ex + -52 + 52)%Z with ex by lia. exact V.
Qed.

Lemma SFsub_self (x : spec_float) :
  finite x -> SFsub prec emax x x = S754_zero false.
Proof.
  destruct x as [[|]|sx| |sx mx ex]; simpl; try contradiction; trivial.
  intros _. rewrite Z.sub_diag. reflexivity.
Qed.

(** X13.  The ends of the scale of discounts.  On a finite price, no
    discount gives back the price (as [===] compares; [-0] comes back as
    [0]) and a discount of 1 gives exactly 0, with no residue of
    rounding.  On a price that is not finite, both give NaN. *)
Theorem applyDiscount_edges (price : JS.number) :
  (JS.isFinite price = true ->
     PrimFloat.eqb (applyDiscount price (Some 0)) price = true /\
     applyDiscount price (Some 1) = 0) /\
  (JS.isFinite price = false ->
     PrimFloat.is_nan (applyDiscount price (Some 0)) = true /\
     PrimFloat.is_nan (applyDiscount price (Some 1)) = true).
Proof.
  assert (One : forall x, Prim2SF (x - x * 1) = SFsub prec emax (Prim2SF x) (Prim2SF x)).
  { intro x. rewrite sub_spec, mul_spec.
    change (Prim2SF 1) with (S754_finite false 4503599627370496 (-52)).
    unfold SF64sub, SF64mul. rewrite SFmul_one by apply Prim2SF_valid.
    reflexivity. }
  assert (Zero : forall x, Prim2SF (x - x * 0) =
                   SFsub prec emax (Prim2SF x)
                     (SFmul prec emax (Prim2SF x) (S754_zero false))).
  { intro x. rewrite sub_spec, mul_spec. reflexivity. }
  unfold applyDiscount. split.
  - intro F. apply isFinite_spec in F. split.
    + rewrite eqb_spec, Zero. apply SFeqb_true. unfold not_nan.
      destruct (Prim2SF price) as [[|]|s| |[|] m e];
        try contradiction; simpl;
        (split; [ discriminate | split; [ discriminate | reflexivity ] ]).
    + apply Prim2SF_inj. rewrite One, SFsub_self by exact F. reflexivity.
  - intro F.
    assert (NF : ~ finite (Prim2SF price)).
    { intro H. apply isFinite_spec in H. congruence. }
    split; apply is_nan_spec.
    + rewrite Zero.
      destruct (Prim2SF price) as [s|[|]| |s m e]; simpl; trivial;
        exfalso; apply NF; exact I.
    + rewrite One.
      destruct (Prim2SF price) as [s|[|]| |s m e]; simpl; trivial;
        exfalso; apply NF; exact I.
Qed.

Lemma applyDiscount_edges_witness :
  PrimFloat.eqb (applyDiscount 1000 (Some 0)) 1000 = true /\
  applyDiscount 1000 (Some 1) = 0 /\
  PrimFloat.is_nan (applyDiscount infinity (Some 0)) = true.
Proof.
  destruct (applyDiscount_edges 1000) as (H & _).
  destruct (H eq_refl) as (H0 & H1).
  destruct (applyDiscount_edges infinity) as (_ & H').
  destruct (H' eq_refl) as (H2 & _).
  split; [ exact H0 | ]. split; [ exact H1 | exact H2 ].
Defined.
